(** * Silent WAV Cleaner: a shallow embedding of [cleanup.py]

    The development follows the three parts of the script:
    - [compute_sample_positions], the sample planner;
    - [scan_wav_for_silence], the sampling classifier;
    - the loop of [main], the scan pipeline.

    Conventions of the embedding.
    - Python [int] is [Z].
    - A finite binary64 number is the rational it denotes; an arithmetic
      operation of binary64 is the exact operation on [Q] followed by
      [Binary64.round], rounding to nearest, ties to even. [np.linspace]
      is evaluated that way, step by step as numpy does.
    - A sample read from the file, a peak and [max_abs_seen] are values of
      [float]: a finite rational, an infinity or NaN, compared as IEEE 754
      compares them. The threshold and the duration are finite.
    - What the operating system and the audio library answer for a file is
      data of the model ([WavFile], [SoundFile]); an [Exception] raised by
      such a call is a value of type [exn]. *)

From Stdlib Require Import ZArith QArith Qround Qabs Qpower List String.
From Stdlib Require Import DecimalString Bool Lia Lqa Sorted.
Import ListNotations.
Open Scope Z_scope.

(** ** Binary64 arithmetic *)

Module Binary64.

Definition pow2 (e : Z) : Q := (2 ^ e)%Q.

(** The integer nearest to [x], the even one of the two when [x] is half
    way. *)
Definition rne (x : Q) : Z :=
  let f := Qfloor x in
  match (x - inject_Z f ?= 1 # 2)%Q with
  | Lt => f
  | Gt => f + 1
  | Eq => if Z.even f then f else f + 1
  end.

(** For [x > 0], the integer [k] with [2^k <= x < 2^(k+1)]. *)
Definition ilog2 (x : Q) : Z :=
  let k0 := Z.log2 (Qnum x) - Z.log2 (Zpos (Qden x)) in
  if Qle_bool (pow2 k0) x then k0 else k0 - 1.

(** The binary64 number nearest to [x > 0]: a multiple of [2^e] with a
    53-bit multiplier, [e] being at least -1074 (the subnormal numbers). *)
Definition round_pos (x : Q) : Q :=
  let e := Z.max (ilog2 x - 52) (-1074) in
  (inject_Z (rne (x / pow2 e)) * pow2 e)%Q.

(** The binary64 number nearest to [x], for [x] within the range of the
    finite binary64 numbers. The numbers the script computes with are
    frame counts and sample rates of a sound file, 64-bit integers, and
    their differences, quotients and products by an index: none leaves
    that range. *)
Definition round (x : Q) : Q :=
  match Qnum x with
  | Z0 => 0%Q
  | Zpos _ => round_pos x
  | Zneg _ => (- round_pos (- x))%Q
  end.

End Binary64.

(** ** numpy helpers used by the planner *)

Module Np.

(** [np.arange(0, num)] as a list of integers. *)
Definition arange (num : Z) : list Z :=
  map Z.of_nat (seq 0 (Z.to_nat num)).

(** The conversion of an integer to [float64]. *)
Definition float64 (n : Z) : Q := Binary64.round (inject_Z n).

(** [astype(np.int64)] of an integral [float64] value; a value outside the
    range of [int64] comes out as the least [int64] (x86-64). *)
Definition astype_int64 (z : Z) : Z :=
  if (- 2 ^ 63 <=? z) && (z <? 2 ^ 63) then z else - 2 ^ 63.

(** Entry [i] of the [float64] array [y] of [np.linspace(start, stop,
    num=num)] before the last entry is overwritten: [delta] is
    [np.subtract(stop, start, dtype=float64)] and [step = delta / div];
    [y = arange(0, num) * step] when [div > 0] (computed as
    [(arange(0, num) / div) * delta] when [step] is zero) and
    [y = arange(0, num) * delta] otherwise; then [y += start]. *)
Definition linspace_y (start stop num i : Z) : Q :=
  let div := num - 1 in
  let delta := Binary64.round (float64 stop - float64 start) in
  let step := Binary64.round (delta / float64 div) in
  let y :=
    if 0 <? div then
      if Qeq_bool step 0
      then Binary64.round (Binary64.round (float64 i / float64 div) * delta)
      else Binary64.round (float64 i * step)
    else Binary64.round (float64 i * delta) in
  Binary64.round (y + float64 start).

(** [np.linspace(start, stop, num=num, dtype=np.int64)] with the default
    [endpoint=True]: the array [y] above, its last entry overwritten by
    [stop] when [num > 1], then [floor] and the conversion to [int64]. *)
Definition linspace (start stop num : Z) : list Z :=
  map (fun i =>
         astype_int64
           (Qfloor (if (1 <? num) && (i =? num - 1) then float64 stop
                    else linspace_y start stop num i)))
      (arange num).

(** One step of building the sorted array of distinct values. *)
Fixpoint insert_unique (x : Z) (l : list Z) : list Z :=
  match l with
  | [] => [x]
  | y :: t =>
      if x <? y then x :: l
      else if x =? y then l
      else y :: insert_unique x t
  end.

(** [np.unique(a)]: the sorted distinct values of [a]. *)
Definition unique (a : list Z) : list Z :=
  fold_right insert_unique [] a.

End Np.

(** ** The sample planner *)

(** The array handed to [np.unique] on the long-file path of
    [compute_sample_positions]: [np.linspace(0, max_start,
    num=max(1, num_samples), dtype=np.int64)]. *)
Definition linspace_starts (total_frames frames_per_interval num_samples : Z)
  : list Z :=
  let max_start := total_frames - frames_per_interval in
  Np.linspace 0 max_start (Z.max 1 num_samples).

Definition compute_sample_positions
    (total_frames sr interval_seconds num_samples : Z) : list Z * Z :=
  let frames_per_interval := sr * interval_seconds in
  if (sr <=? 0) || (total_frames <=? 0) || (frames_per_interval <=? 0) then
    ([], frames_per_interval)
  else if total_frames <=? frames_per_interval then
    ([0], frames_per_interval)
  else
    let starts :=
      linspace_starts total_frames frames_per_interval num_samples in
    let starts := Np.unique starts in
    (starts, frames_per_interval).

(** ** Python values and effects *)

(** A raised [Exception]: [type(e).__name__] and [str(e)]. *)
Record exn : Type := mkExn { exn_type : string; exn_msg : string }.

(** Calls made to the operating system and to the audio library, in the
    order they are made. [Read p n] is [f.read(n, ...)] issued with the
    stream positioned at frame [p]. *)
Inductive event : Type :=
| Stat
| Open
| Seek (frame : Z)
| Read (position frames : Z)
| Close.

(** The state the classifier works on: the position of the open stream
    and the record of the calls made so far. *)
Record World : Type := mkWorld { pos : Z; calls : list event }.

Definition world0 : World := {| pos := 0; calls := [] |}.

(** Computations that may raise and that act on the [World]; state changes
    made before an exception is raised are kept, as in Python. *)
Definition Py (A : Type) : Type := World -> World * (exn + A).

Definition ret {A : Type} (a : A) : Py A := fun s => (s, inr a).

Definition bind {A B : Type} (m : Py A) (k : A -> Py B) : Py B :=
  fun s =>
    match m s with
    | (s', inl e) => (s', inl e)
    | (s', inr a) => k a s'
    end.

Declare Scope py_scope.
Delimit Scope py_scope with py.
Notation "x <- m ;; k" := (bind m (fun x => k))
  (at level 61, m at next level, right associativity) : py_scope.
Notation "m ;; k" := (bind m (fun _ => k))
  (at level 61, right associativity) : py_scope.

(** The outcome of an external call, as the environment decides it. *)
Definition lift {A : Type} (r : exn + A) : Py A := fun s => (s, r).

Definition call (ev : event) : Py unit :=
  fun s => ({| pos := pos s; calls := calls s ++ [ev] |}, inr tt).

Definition get_pos : Py Z := fun s => (s, inr (pos s)).

Definition set_pos (p : Z) : Py unit :=
  fun s => ({| pos := p; calls := calls s |}, inr tt).

(** [try: m finally: cleanup]. *)
Definition finally {A : Type} (m : Py A) (cleanup : Py unit) : Py A :=
  fun s =>
    match m s with
    | (s', r) =>
        match cleanup s' with
        | (s'', inl e) => (s'', inl e)
        | (s'', inr _) => (s'', r)
        end
    end.

(** ** Floating-point values *)

(** A [float32] sample or a Python [float]: a finite number, an infinity
    or NaN. *)
Inductive float : Type :=
| Finite (q : Q)
| PosInf
| NegInf
| NaN.

Definition is_nan (x : float) : bool :=
  match x with NaN => true | _ => false end.

(** [abs(x)] *)
Definition fabs (x : float) : float :=
  match x with
  | Finite q => Finite (Qabs q)
  | PosInf | NegInf => PosInf
  | NaN => NaN
  end.

(** [x <= y]: false as soon as one side is NaN. *)
Definition fleb (x y : float) : bool :=
  match x, y with
  | NaN, _ | _, NaN => false
  | NegInf, _ | _, PosInf => true
  | Finite a, Finite b => Qle_bool a b
  | _, _ => false
  end.

(** [x > y]: false as soon as one side is NaN. *)
Definition fgtb (x y : float) : bool :=
  match x, y with
  | NaN, _ | _, NaN => false
  | _, _ => negb (fleb x y)
  end.

Definition fle (x y : float) : Prop := fleb x y = true.
Definition flt (x y : float) : Prop := fgtb y x = true.
Definition feq (x y : float) : Prop := fle x y /\ fle y x.

(** ** The audio library and the file system, as seen by the script *)

(** The array returned by [f.read(..., always_2d=True)]: one row per
    frame, one column per channel. *)
Definition Data : Type := list (list float).

(** [data.size] *)
Definition size (data : Data) : Z := Z.of_nat (List.length (List.concat data)).

(** An opened [sf.SoundFile]: its header fields and what [seek] and
    [read] answer. [sf_read p n] is the answer to [read(n)] with the stream
    at frame [p]. *)
Record SoundFile : Type := mkSoundFile {
  sf_samplerate : Z;
  sf_channels : Z;
  sf_len : Z;
  sf_seek : Z -> exn + unit;
  sf_read : Z -> Z -> exn + Data
}.

(** A path under the root directory, with what [stat], [sf.SoundFile] and
    [os.remove] answer for it. *)
Record WavFile : Type := mkWavFile {
  str_path : string;
  stat_result : exn + Z;
  open_result : exn + SoundFile;
  remove_result : exn + unit
}.

Definition stat (w : WavFile) : Py Z :=
  (call Stat ;; lift (stat_result w))%py.

Definition seek (f : SoundFile) (frame : Z) : Py unit :=
  (call (Seek frame) ;; lift (sf_seek f frame) ;; set_pos frame)%py.

Definition read (f : SoundFile) (frames : Z) : Py Data :=
  (p <- get_pos ;;
   call (Read p frames) ;;
   data <- lift (sf_read f p frames) ;;
   set_pos (p + Z.of_nat (List.length data)) ;;
   ret data)%py.

(** [with sf.SoundFile(wav_path) as f: body]. *)
Definition with_SoundFile {A : Type} (w : WavFile) (body : SoundFile -> Py A)
  : Py A :=
  (call Open ;;
   f <- lift (open_result w) ;;
   set_pos 0 ;;
   finally (body f) (call Close))%py.

(** ** Floating-point helpers *)

(** Python's [max(a, b)]: [a] unless [b > a]. *)
Definition py_max (a b : float) : float := if fgtb b a then b else a.

(** [np.maximum(a, b)]: NaN when one side is NaN. *)
Definition np_maximum (a b : float) : float :=
  if is_nan a then a else if is_nan b then b else if fgtb b a then b else a.

(** [np.max(np.abs(data))] for a non-empty array: NaN when a sample is
    NaN. *)
Definition np_max_abs (data : Data) : float :=
  match map fabs (List.concat data) with
  | [] => Finite 0
  | x :: t => fold_left np_maximum t x
  end.

(** [str(n)] for an integer. *)
Definition str_int (n : Z) : string := NilZero.string_of_int (Z.to_int n).

(** ** Configuration and results *)

(** The hard-coded configuration block of the script. *)
Record Config : Type := mkConfig {
  MODE : string;
  INTERVAL_SECONDS : Z;
  NUM_SAMPLES_PER_FILE : Z;
  SILENCE_THRESHOLD : Q;
  MIN_SIZE_BYTES : Z
}.

(** The values the script ships with; the threshold is the binary64 value
    of the literal [1e-4]. *)
Definition shipped_config : Config :=
  {| MODE := "AUDIT";
     INTERVAL_SECONDS := 7;
     NUM_SAMPLES_PER_FILE := 16;
     SILENCE_THRESHOLD := 7378697629483821 # 73786976294838206464;
     MIN_SIZE_BYTES := 0 |}.

Record ScanResult : Type := mkScanResult {
  path : string;
  decision : string;
  detail : string;
  size_bytes : Z;
  duration_sec : Q;
  samplerate : Z;
  channels : Z;
  interval_seconds : Z;
  num_samples_used : Z;
  threshold : Q;
  max_abs_seen : float
}.

(** How the [for] loop of the classifier is left: by the [return] inside
    it, or by running out of chunk starts. *)
Inductive LoopExit : Type :=
| Return (res : ScanResult)
| Fallthrough (max_abs_seen : float).

Section Script.

(** [f"{x:.6g}"], the formatting of a float with six significant digits. *)
Variable format_6g : float -> string.

Variable cfg : Config.

(** ** The classifier *)

(** The [except Exception as e] branch of [scan_wav_for_silence]. *)
Definition error_result (str_wav_path : string) (e : exn) : ScanResult :=
  {| path := str_wav_path;
     decision := "ERROR";
     detail := exn_type e ++ ": " ++ exn_msg e;
     size_bytes := 0;
     duration_sec := 0;
     samplerate := 0;
     channels := 0;
     interval_seconds := INTERVAL_SECONDS cfg;
     num_samples_used := 0;
     threshold := SILENCE_THRESHOLD cfg;
     max_abs_seen := Finite 0 |}.

Section Opened.

(** The names bound in [scan_wav_for_silence] when the loop starts. *)
Variable wav_path : string.
Variable f : SoundFile.
Variables size_bytes sr ch : Z.
Variable duration_sec : Q.
Variable starts : list Z.
Variable frames_per_interval : Z.

Definition keep_result (peak max_abs_seen : float) : ScanResult :=
  mkScanResult
    wav_path
    "KEEP"
    ("Non-silent chunk found (peak=" ++ format_6g peak ++ " > threshold).")
    size_bytes
    duration_sec
    sr
    ch
    (INTERVAL_SECONDS cfg)
    (Z.of_nat (List.length starts))
    (SILENCE_THRESHOLD cfg)
    max_abs_seen.

Definition silent_result (max_abs_seen : float) : ScanResult :=
  mkScanResult
    wav_path
    "SILENT"
    "All sampled chunks were below threshold."
    size_bytes
    duration_sec
    sr
    ch
    (INTERVAL_SECONDS cfg)
    (Z.of_nat (List.length starts))
    (SILENCE_THRESHOLD cfg)
    max_abs_seen.

(** [for start in starts: ...], run over the starts still to visit. *)
Fixpoint scan_chunks (todo : list Z) (max_abs_seen : float)
  : Py LoopExit :=
  match todo with
  | [] => ret (Fallthrough max_abs_seen)
  | start :: todo' =>
      (seek f start ;;
       data <- read f frames_per_interval ;;
       if size data =? 0 then scan_chunks todo' max_abs_seen
       else
         let peak := np_max_abs data in
         let max_abs_seen := py_max max_abs_seen peak in
         if fgtb peak (Finite (SILENCE_THRESHOLD cfg)) then
           ret (Return (keep_result peak max_abs_seen))
         else scan_chunks todo' max_abs_seen)%py
  end.

End Opened.

(** The body of the [try] block. *)
Definition scan_body (wav_path : WavFile) : Py ScanResult :=
  (size_bytes <- stat wav_path ;;
   if size_bytes <? MIN_SIZE_BYTES cfg then
     ret (mkScanResult
            (str_path wav_path)
            "KEEP"
            ("Below MIN_SIZE_BYTES (" ++ str_int size_bytes ++ " < "
             ++ str_int (MIN_SIZE_BYTES cfg) ++ ").")
            size_bytes
            0%Q
            0
            0
            (INTERVAL_SECONDS cfg)
            0
            (SILENCE_THRESHOLD cfg)
            (Finite 0))
   else
     with_SoundFile wav_path (fun f =>
       let sr := sf_samplerate f in
       let ch := sf_channels f in
       let total_frames := sf_len f in
       let duration_sec :=
         if 0 <? sr
         then Binary64.round (inject_Z total_frames / inject_Z sr)
         else 0%Q in
       let '(starts, frames_per_interval) :=
         compute_sample_positions total_frames sr (INTERVAL_SECONDS cfg)
                                  (NUM_SAMPLES_PER_FILE cfg) in
       if Z.of_nat (List.length starts) =? 0 then
         ret (mkScanResult
                (str_path wav_path)
                "ERROR"
                "Could not compute sample positions (invalid WAV metadata or empty audio)."
                size_bytes
                duration_sec
                sr
                ch
                (INTERVAL_SECONDS cfg)
                0
                (SILENCE_THRESHOLD cfg)
                (Finite 0))
       else
         exit <- scan_chunks (str_path wav_path) f size_bytes sr ch
                             duration_sec starts frames_per_interval
                             starts (Finite 0) ;;
         match exit with
         | Return res => ret res
         | Fallthrough max_abs_seen =>
             ret (silent_result (str_path wav_path) size_bytes sr ch
                                duration_sec starts max_abs_seen)
         end))%py.

(** [scan_wav_for_silence]: the [try] block run from a fresh state, with
    the [except Exception] handler applied to what it raises. *)
Definition scan_wav_for_silence (wav_path : WavFile) : ScanResult :=
  match snd (scan_body wav_path world0) with
  | inr res => res
  | inl e => error_result (str_path wav_path) e
  end.

(** The calls the classification of [w] makes, in order. *)
Definition scan_calls (w : WavFile) : list event :=
  calls (fst (scan_body w world0)).

(** ** The pipeline *)

(** The counters and the report rows of [main], with the record of the
    paths handed to [os.remove]. *)
Record Summary : Type := mkSummary {
  scanned : Z;
  silent_candidates : Z;
  deleted_count : Z;
  error_count : Z;
  bytes_candidate_savings : Z;
  bytes_deleted_savings : Z;
  report_rows : list ScanResult;
  remove_calls : list string
}.

Definition summary0 : Summary :=
  {| scanned := 0; silent_candidates := 0; deleted_count := 0;
     error_count := 0; bytes_candidate_savings := 0;
     bytes_deleted_savings := 0; report_rows := []; remove_calls := [] |}.

(** The row appended when [os.remove] raises. *)
Definition delete_failed_row (res : ScanResult) (e : exn) : ScanResult :=
  {| path := path res;
     decision := "ERROR";
     detail := "Delete failed: " ++ exn_type e ++ ": " ++ exn_msg e;
     size_bytes := size_bytes res;
     duration_sec := duration_sec res;
     samplerate := samplerate res;
     channels := channels res;
     interval_seconds := interval_seconds res;
     num_samples_used := num_samples_used res;
     threshold := threshold res;
     max_abs_seen := max_abs_seen res |}.

(** One iteration of [for wav in tqdm(wav_files, ...)]. *)
Definition main_step (st : Summary) (wav : WavFile) : Summary :=
  let scanned := scanned st + 1 in
  let res := scan_wav_for_silence wav in
  if (decision res =? "SILENT")%string then
    let silent_candidates := silent_candidates st + 1 in
    let bytes_candidate_savings :=
      bytes_candidate_savings st + size_bytes res in
    let report_rows := report_rows st ++ [res] in
    if (MODE cfg =? "DELETE")%string then
      let remove_calls := remove_calls st ++ [path res] in
      match remove_result wav with
      | inr _ =>
          mkSummary scanned silent_candidates (deleted_count st + 1)
                    (error_count st) bytes_candidate_savings
                    (bytes_deleted_savings st + size_bytes res)
                    report_rows remove_calls
      | inl e =>
          mkSummary scanned silent_candidates (deleted_count st)
                    (error_count st + 1) bytes_candidate_savings
                    (bytes_deleted_savings st)
                    (report_rows ++ [delete_failed_row res e]) remove_calls
      end
    else
      mkSummary scanned silent_candidates (deleted_count st) (error_count st)
                bytes_candidate_savings (bytes_deleted_savings st)
                report_rows (remove_calls st)
  else if (decision res =? "ERROR")%string then
    mkSummary scanned (silent_candidates st) (deleted_count st)
              (error_count st + 1) (bytes_candidate_savings st)
              (bytes_deleted_savings st) (report_rows st ++ [res])
              (remove_calls st)
  else
    mkSummary scanned (silent_candidates st) (deleted_count st)
              (error_count st) (bytes_candidate_savings st)
              (bytes_deleted_savings st) (report_rows st) (remove_calls st).

Definition main_loop (st : Summary) (wav_files : list WavFile) : Summary :=
  fold_left main_step wav_files st.

(** [main], up to the rows handed to [write_csv]: the two checks that
    abort the run, then the loop over the enumerated files. *)
Definition main (root_is_dir : bool) (wav_files : list WavFile)
  : exn + Summary :=
  if negb ((MODE cfg =? "AUDIT")%string || (MODE cfg =? "DELETE")%string) then
    inl (mkExn "ValueError" "MODE must be 'AUDIT' or 'DELETE'")
  else if negb root_is_dir then
    inl (mkExn "FileNotFoundError" "ROOT_DIRECTORY is not a directory")
  else inr (main_loop summary0 wav_files).

End Script.

(** ** Vocabulary of the statements *)

(** The calls made by one pass of the loop body at [start]. *)
Definition visit (frames_per_interval start : Z) : list event :=
  [Seek start; Read start frames_per_interval].

Definition visits (frames_per_interval : Z) (starts : list Z) : list event :=
  flat_map (visit frames_per_interval) starts.

(** The peak the loop body computes for the chunk at [start]: none when the
    read raises or returns no data. *)
Definition chunk_peak (f : SoundFile) (frames_per_interval start : Z)
  : option float :=
  match sf_read f start frames_per_interval with
  | inr data => if size data =? 0 then None else Some (np_max_abs data)
  | inl _ => None
  end.

(** The peaks of the chunks at [starts], in order. *)
Definition probed_peaks (f : SoundFile) (frames_per_interval : Z)
    (starts : list Z) : list float :=
  flat_map (fun start =>
              match chunk_peak f frames_per_interval start with
              | Some peak => [peak]
              | None => []
              end) starts.

(** [seek] and [read] both succeed at [start]. *)
Definition readable (f : SoundFile) (frames_per_interval start : Z) : Prop :=
  sf_seek f start = inr tt /\
  exists data, sf_read f start frames_per_interval = inr data.

(** [peak > SILENCE_THRESHOLD] is false: the peak is at most the
    threshold, or it is NaN. *)
Definition not_above (cfg : Config) (peak : float) : Prop :=
  fgtb peak (Finite (SILENCE_THRESHOLD cfg)) = false.

(** The chunk at [start] is read and does not stop the scan: it is empty,
    or its peak is not above the threshold. *)
Definition quiet (cfg : Config) (f : SoundFile) (frames_per_interval start : Z)
  : Prop :=
  readable f frames_per_interval start /\
  forall peak, chunk_peak f frames_per_interval start = Some peak ->
               not_above cfg peak.

(** [duration_sec] as [scan_wav_for_silence] computes it. *)
Definition duration_of (f : SoundFile) : Q :=
  if 0 <? sf_samplerate f
  then Binary64.round (inject_Z (sf_len f) / inject_Z (sf_samplerate f))
  else 0%Q.

(** The classification of [w] gets past [stat], the size gate and the
    opening of the file, and the planner answers [(starts, fpi)]. *)
Definition reaches_plan (cfg : Config) (w : WavFile) (size_bytes : Z)
    (f : SoundFile) (starts : list Z) (frames_per_interval : Z) : Prop :=
  stat_result w = inr size_bytes /\
  (size_bytes <? MIN_SIZE_BYTES cfg) = false /\
  open_result w = inr f /\
  compute_sample_positions (sf_len f) (sf_samplerate f)
    (INTERVAL_SECONDS cfg) (NUM_SAMPLES_PER_FILE cfg)
  = (starts, frames_per_interval).

(** The state in which the loop is entered. *)
Definition world_opened : World := {| pos := 0; calls := [Stat; Open] |}.

(** The loop of the classification of [w], with the values bound when it
    starts. *)
Definition file_loop (format_6g : float -> string) (cfg : Config)
    (w : WavFile) (size_bytes : Z) (f : SoundFile) (starts : list Z)
    (frames_per_interval : Z) : list Z -> float -> Py LoopExit :=
  scan_chunks format_6g cfg (str_path w) f size_bytes (sf_samplerate f)
              (sf_channels f) (duration_of f) starts frames_per_interval.

(** [res.decision == "SILENT"] *)
Definition is_silent (res : ScanResult) : bool :=
  (decision res =? "SILENT")%string.

(** The events that are reads, and those that touch the opened stream. *)
Definition is_read (ev : event) : bool :=
  match ev with Read _ _ => true | _ => false end.

Definition is_chunk_call (ev : event) : bool :=
  match ev with Seek _ | Read _ _ => true | _ => false end.

(** The three ways the scan stops at the chunk at [k]: [seek] raises,
    [read] raises, or the chunk is measured above the threshold. *)
Definition seek_fails (f : SoundFile) (k : Z) (e : exn) : Prop :=
  sf_seek f k = inl e.

Definition read_fails (f : SoundFile) (frames_per_interval k : Z) (e : exn)
  : Prop :=
  sf_seek f k = inr tt /\ sf_read f k frames_per_interval = inl e.

Definition loud (cfg : Config) (f : SoundFile) (frames_per_interval k : Z)
    (data : Data) : Prop :=
  sf_seek f k = inr tt /\ sf_read f k frames_per_interval = inr data /\
  (size data =? 0) = false /\
  flt (Finite (SILENCE_THRESHOLD cfg)) (np_max_abs data).

(** The row returned for a file below the size gate, and the row returned
    when the planner answers no offsets. *)
Definition gate_row (cfg : Config) (w : WavFile) (size_bytes : Z)
  : ScanResult :=
  mkScanResult (str_path w) "KEEP"
    ("Below MIN_SIZE_BYTES (" ++ str_int size_bytes ++ " < "
     ++ str_int (MIN_SIZE_BYTES cfg) ++ ").")
    size_bytes 0%Q 0 0 (INTERVAL_SECONDS cfg) 0 (SILENCE_THRESHOLD cfg)
    (Finite 0).

Definition no_plan_row (cfg : Config) (w : WavFile) (size_bytes : Z)
    (f : SoundFile) : ScanResult :=
  mkScanResult (str_path w) "ERROR"
    "Could not compute sample positions (invalid WAV metadata or empty audio)."
    size_bytes (duration_of f) (sf_samplerate f) (sf_channels f)
    (INTERVAL_SECONDS cfg) 0 (SILENCE_THRESHOLD cfg) (Finite 0).

(** The paths through [scan_wav_for_silence]: for each, the condition on
    what the environment answers, the row returned and the calls made. *)
Inductive Classified (format_6g : float -> string) (cfg : Config)
    (w : WavFile) : ScanResult -> list event -> Prop :=
| StatFailed (e : exn) :
    stat_result w = inl e ->
    Classified format_6g cfg w (error_result cfg (str_path w) e) [Stat]
| Gated (size_bytes : Z) :
    stat_result w = inr size_bytes ->
    (size_bytes <? MIN_SIZE_BYTES cfg) = true ->
    Classified format_6g cfg w (gate_row cfg w size_bytes) [Stat]
| OpenFailed (size_bytes : Z) (e : exn) :
    stat_result w = inr size_bytes ->
    (size_bytes <? MIN_SIZE_BYTES cfg) = false ->
    open_result w = inl e ->
    Classified format_6g cfg w (error_result cfg (str_path w) e) [Stat; Open]
| NoPlan (size_bytes : Z) (f : SoundFile) (fpi : Z) :
    reaches_plan cfg w size_bytes f [] fpi ->
    Classified format_6g cfg w (no_plan_row cfg w size_bytes f)
               [Stat; Open; Close]
| AllQuiet (size_bytes : Z) (f : SoundFile) (starts : list Z) (fpi : Z) :
    reaches_plan cfg w size_bytes f starts fpi -> starts <> [] ->
    Forall (quiet cfg f fpi) starts ->
    Classified format_6g cfg w
      (silent_result cfg (str_path w) size_bytes (sf_samplerate f)
         (sf_channels f) (duration_of f) starts
         (fold_left py_max (probed_peaks f fpi starts) (Finite 0)))
      ([Stat; Open] ++ visits fpi starts ++ [Close])
| LoudChunk (size_bytes : Z) (f : SoundFile) (starts : list Z) (fpi : Z)
    (pre post : list Z) (k : Z) (data : Data) :
    reaches_plan cfg w size_bytes f starts fpi ->
    starts = pre ++ k :: post ->
    Forall (quiet cfg f fpi) pre -> loud cfg f fpi k data ->
    Classified format_6g cfg w
      (keep_result format_6g cfg (str_path w) size_bytes (sf_samplerate f)
         (sf_channels f) (duration_of f) starts (np_max_abs data)
         (py_max (fold_left py_max (probed_peaks f fpi pre) (Finite 0))
                 (np_max_abs data)))
      ([Stat; Open] ++ visits fpi (pre ++ [k]) ++ [Close])
| SeekFailed (size_bytes : Z) (f : SoundFile) (starts : list Z) (fpi : Z)
    (pre post : list Z) (k : Z) (e : exn) :
    reaches_plan cfg w size_bytes f starts fpi ->
    starts = pre ++ k :: post ->
    Forall (quiet cfg f fpi) pre -> seek_fails f k e ->
    Classified format_6g cfg w (error_result cfg (str_path w) e)
      ([Stat; Open] ++ visits fpi pre ++ [Seek k; Close])
| ReadFailed (size_bytes : Z) (f : SoundFile) (starts : list Z) (fpi : Z)
    (pre post : list Z) (k : Z) (e : exn) :
    reaches_plan cfg w size_bytes f starts fpi ->
    starts = pre ++ k :: post ->
    Forall (quiet cfg f fpi) pre -> read_fails f fpi k e ->
    Classified format_6g cfg w (error_result cfg (str_path w) e)
      ([Stat; Open] ++ visits fpi (pre ++ [k]) ++ [Close]).

(** [res.decision == "ERROR"] *)
Definition is_error (res : ScanResult) : bool :=
  (decision res =? "ERROR")%string.

(** [os.remove] raises for this file. *)
Definition remove_fails (w : WavFile) : bool :=
  match remove_result w with inl _ => true | inr _ => false end.

(** The number of entries of a list that pass a test, as an integer. *)
Definition count {A : Type} (test : A -> bool) (l : list A) : Z :=
  Z.of_nat (List.length (filter test l)).

(** ** The enumeration of the files *)

(** [str.lower] on the characters that decide the comparison with [".wav"]:
    the ASCII capitals become small letters and every other byte is kept
    (no character outside ASCII becomes a dot or one of the letters w, a,
    v when lowercased). *)
Definition ascii_lower (c : Ascii.ascii) : Ascii.ascii :=
  let n := Ascii.nat_of_ascii c in
  if (65 <=? n)%nat && (n <=? 90)%nat then Ascii.ascii_of_nat (n + 32) else c.

Fixpoint lower (s : string) : string :=
  match s with
  | EmptyString => EmptyString
  | String c t => String (ascii_lower c) (lower t)
  end.

(** What [root.rglob("*")] yields: a path with the answers of
    [p.is_file()] and [p.suffix]. *)
Record DirEntry : Type := mkDirEntry {
  entry : WavFile;
  is_file : bool;
  suffix : string
}.

Definition find_wav_files (rglob : list DirEntry) : list WavFile :=
  map entry
      (filter (fun p => is_file p && (lower (suffix p) =? ".wav")%string)
              rglob).

(** ** Sample files *)

Module Samples.

(** A stand-in for [f"{x:.6g}"] that prints the fraction. *)
Definition show_ratio (x : float) : string :=
  match x with
  | Finite q => (str_int (Qnum q) ++ "/" ++ str_int (Zpos (Qden q)))%string
  | PosInf => "inf"
  | NegInf => "-inf"
  | NaN => "nan"
  end.

Definition cfg_delete : Config :=
  {| MODE := "DELETE";
     INTERVAL_SECONDS := 7;
     NUM_SAMPLES_PER_FILE := 16;
     SILENCE_THRESHOLD := 1 # 10000;
     MIN_SIZE_BYTES := 0 |}.

Definition denied : exn := mkExn "PermissionError" "access denied".

(** Ten frames at 1 Hz, one channel: the plan is [[0; 1; 2; 3]] with chunks
    of 7 frames. The read at frame 1 returns nothing; the others peak at
    exactly the threshold. *)
Definition sf_quiet : SoundFile :=
  {| sf_samplerate := 1; sf_channels := 1; sf_len := 10;
     sf_seek := fun _ => inr tt;
     sf_read := fun p _ =>
       inr (if p =? 1 then [] else [[Finite (-1 # 100000)]; [Finite (1 # 10000)]]) |}.

(** The same, with a loud chunk at frame 2. *)
Definition sf_loud : SoundFile :=
  {| sf_samplerate := 1; sf_channels := 1; sf_len := 10;
     sf_seek := fun _ => inr tt;
     sf_read := fun p _ =>
       inr (if p =? 2 then [[Finite (-1 # 2)]]
            else if p =? 1 then []
            else [[Finite (-1 # 100000)]; [Finite (1 # 10000)]]) |}.

(** Every read returns nothing. *)
Definition sf_mute : SoundFile :=
  {| sf_samplerate := 1; sf_channels := 1; sf_len := 10;
     sf_seek := fun _ => inr tt;
     sf_read := fun _ _ => inr [] |}.

(** The read at frame 1 raises. *)
Definition sf_broken : SoundFile :=
  {| sf_samplerate := 1; sf_channels := 1; sf_len := 10;
     sf_seek := fun _ => inr tt;
     sf_read := fun p _ =>
       if p =? 1 then inl (mkExn "LibsndfileError" "read failed")
       else inr [[Finite (0 # 1)]] |}.

(** A header with no frames. *)
Definition sf_no_frames : SoundFile :=
  {| sf_samplerate := 48000; sf_channels := 2; sf_len := 0;
     sf_seek := fun _ => inr tt;
     sf_read := fun _ _ => inr [] |}.

Definition wav_quiet : WavFile :=
  {| str_path := "quiet.wav"; stat_result := inr 100;
     open_result := inr sf_quiet; remove_result := inl denied |}.

Definition wav_loud : WavFile :=
  {| str_path := "loud.wav"; stat_result := inr 100;
     open_result := inr sf_loud; remove_result := inr tt |}.

Definition wav_mute : WavFile :=
  {| str_path := "mute.wav"; stat_result := inr 100;
     open_result := inr sf_mute; remove_result := inr tt |}.

Definition wav_broken : WavFile :=
  {| str_path := "broken.wav"; stat_result := inr 100;
     open_result := inr sf_broken; remove_result := inr tt |}.

Definition wav_no_frames : WavFile :=
  {| str_path := "header_only.wav"; stat_result := inr 44;
     open_result := inr sf_no_frames; remove_result := inr tt |}.



(** A configuration whose size gate is on. *)
Definition cfg_gated : Config :=
  {| MODE := "AUDIT";
     INTERVAL_SECONDS := 7;
     NUM_SAMPLES_PER_FILE := 16;
     SILENCE_THRESHOLD := 1 # 10000;
     MIN_SIZE_BYTES := 1000 |}.

(** As [sf_quiet] at the planned offsets 0 to 3, and loud at frame 5,
    which is not planned. *)
Definition sf_loud_elsewhere : SoundFile :=
  {| sf_samplerate := 1; sf_channels := 1; sf_len := 10;
     sf_seek := fun _ => inr tt;
     sf_read := fun p _ =>
       inr (if p =? 5 then [[Finite (9 # 10)]]
            else if p =? 1 then []
            else [[Finite (-1 # 100000)]; [Finite (1 # 10000)]]) |}.

Definition wav_loud_elsewhere : WavFile :=
  {| str_path := "quiet.wav"; stat_result := inr 100;
     open_result := inr sf_loud_elsewhere; remove_result := inr tt |}.

End Samples.

(** * Properties of binary64 rounding *)

Section Binary64Facts.

Import Binary64.
Local Open Scope Q_scope.

Lemma pow2_pos (e : Z) : 0 < pow2 e.
Proof. unfold pow2. apply Qpower_0_lt. reflexivity. Qed.

Lemma pow2_plus (a b : Z) : pow2 (a + b) == pow2 a * pow2 b.
Proof. unfold pow2. apply Qpower_plus. discriminate. Qed.

Lemma pow2_Z (e : Z) : (0 <= e)%Z -> pow2 e == inject_Z (2 ^ e).
Proof. intros H. unfold pow2. now rewrite Zpower_Qpower. Qed.

Lemma pow2_le_mono (a b : Z) : (a <= b)%Z -> pow2 a <= pow2 b.
Proof. intros H. unfold pow2. apply Qpower_le_compat_l; [assumption|]. discriminate. Qed.

Lemma pow2_lt_inv (a b : Z) : pow2 a < pow2 b -> (a < b)%Z.
Proof. intros H. unfold pow2 in H. apply (Qpower_lt_compat_l_inv 2); [assumption|reflexivity]. Qed.

Lemma pow2_cancel (e : Z) : pow2 e * pow2 (- e) == 1.
Proof. rewrite <- pow2_plus. now rewrite Z.add_opp_diag_r. Qed.

(** Rounding to the nearest integer, ties to even. *)
Lemma rne_cases (x : Q) :
  (rne x = Qfloor x /\ x - inject_Z (Qfloor x) <= 1 # 2) \/
  (rne x = (Qfloor x + 1)%Z /\ 1 # 2 <= x - inject_Z (Qfloor x)).
Proof.
  unfold rne.
  destruct (x - inject_Z (Qfloor x) ?= 1 # 2) eqn:E.
  - apply Qeq_alt in E.
    destruct (Z.even (Qfloor x)); [left|right]; split; try reflexivity;
      rewrite E; apply Qle_refl.
  - apply Qlt_alt in E. left. split; [reflexivity | now apply Qlt_le_weak].
  - apply Qgt_alt in E. right. split; [reflexivity | now apply Qlt_le_weak].
Qed.

Lemma rne_upper (x : Q) : inject_Z (rne x) <= x + (1 # 2).
Proof.
  pose proof (Qfloor_le x) as Hf.
  destruct (rne_cases x) as [[-> H]|[-> H]].
  - lra.
  - rewrite inject_Z_plus. pose proof (Qlt_floor x) as Hlt.
    rewrite inject_Z_plus in Hlt. change (inject_Z 1) with 1 in *. lra.
Qed.

Lemma rne_lower (x : Q) : x - (1 # 2) <= inject_Z (rne x).
Proof.
  pose proof (Qfloor_le x) as Hf. pose proof (Qlt_floor x) as Hlt.
  rewrite inject_Z_plus in Hlt. change (inject_Z 1) with 1 in *.
  destruct (rne_cases x) as [[-> H]|[-> H]].
  - lra.
  - rewrite inject_Z_plus. change (inject_Z 1) with 1. lra.
Qed.

Lemma rne_comp (x y : Q) : x == y -> rne x = rne y.
Proof.
  intros H. unfold rne. rewrite (Qfloor_comp x y H).
  assert (Hc : (x - inject_Z (Qfloor y) ?= 1 # 2)
               = (y - inject_Z (Qfloor y) ?= 1 # 2))
    by (apply Qcompare_comp; [now rewrite H | reflexivity]).
  now rewrite Hc.
Qed.

Lemma rne_Z (k : Z) : rne (inject_Z k) = k.
Proof.
  destruct (rne_cases (inject_Z k)) as [[-> _]|[_ H]].
  - apply Qfloor_Z.
  - rewrite Qfloor_Z in H. exfalso. lra.
Qed.

Lemma rne_le_Z (x : Q) (k : Z) : x <= inject_Z k -> (rne x <= k)%Z.
Proof.
  intros Hx.
  assert (Hf : (Qfloor x <= k)%Z)
    by (rewrite <- (Qfloor_Z k); now apply Qfloor_resp_le).
  destruct (rne_cases x) as [[-> _]|[-> H]]; [assumption|].
  destruct (Z.eq_dec (Qfloor x) k) as [Heq|Hne]; [|lia].
  exfalso. rewrite Heq in H. lra.
Qed.

Lemma rne_ge_Z (x : Q) (k : Z) : inject_Z k <= x -> (k <= rne x)%Z.
Proof.
  intros Hx.
  assert (Hf : (k <= Qfloor x)%Z)
    by (rewrite <- (Qfloor_Z k); now apply Qfloor_resp_le).
  destruct (rne_cases x) as [[-> _]|[-> _]]; lia.
Qed.

Lemma Qnum_pos (x : Q) : 0 < x -> (0 < Qnum x)%Z.
Proof. destruct x as [a b]. unfold Qlt. simpl. lia. Qed.

Lemma ilog2_spec (x : Q) :
  0 < x -> pow2 (ilog2 x) <= x /\ x < pow2 (ilog2 x + 1).
Proof.
  intros Hx. pose proof (Qnum_pos x Hx) as Ha.
  destruct x as [a b]. simpl in Ha. unfold ilog2. simpl Qnum. simpl Qden.
  set (la := Z.log2 a). set (lb := Z.log2 (Z.pos b)).
  destruct (Z.log2_spec a Ha) as [Ha1 Ha2]. fold la in Ha1, Ha2.
  destruct (Z.log2_spec (Z.pos b) ltac:(lia)) as [Hb1 Hb2].
  fold lb in Hb1, Hb2.
  assert (Hla : (0 <= la)%Z) by apply Z.log2_nonneg.
  assert (Hlb : (0 <= lb)%Z) by apply Z.log2_nonneg.
  assert (HA1 : pow2 la <= inject_Z a)
    by (rewrite pow2_Z by lia; now rewrite <- Zle_Qle).
  assert (HA2 : inject_Z a < pow2 (la + 1))
    by (rewrite pow2_Z by lia; rewrite <- Zlt_Qlt; lia).
  assert (HB1 : pow2 lb <= inject_Z (Z.pos b))
    by (rewrite pow2_Z by lia; now rewrite <- Zle_Qle).
  assert (HB2 : inject_Z (Z.pos b) < pow2 (lb + 1))
    by (rewrite pow2_Z by lia; rewrite <- Zlt_Qlt; lia).
  assert (Hxb : (a # b) * inject_Z (Z.pos b) == inject_Z a).
  { rewrite (Qmake_Qdiv a b). field. discriminate. }
  pose proof (pow2_pos lb) as Hplb. pose proof (pow2_pos (lb + 1)) as Hplb1.
  destruct (Qle_bool (pow2 (la - lb)) (a # b)) eqn:E.
  - apply Qle_bool_iff in E. split; [exact E|].
    apply (Qmult_lt_r _ _ (pow2 lb) Hplb).
    rewrite <- pow2_plus. replace (la - lb + 1 + lb)%Z with (la + 1)%Z by lia.
    eapply Qle_lt_trans; [|exact HA2]. rewrite <- Hxb.
    apply Qmult_le_l; assumption.
  - assert (Hlt : a # b < pow2 (la - lb)).
    { apply Qnot_le_lt. intros H. apply Qle_bool_iff in H. congruence. }
    replace (la - lb - 1 + 1)%Z with (la - lb)%Z by lia.
    split; [|exact Hlt].
    apply (Qmult_le_r _ _ (pow2 (lb + 1)) Hplb1).
    rewrite <- pow2_plus. replace (la - lb - 1 + (lb + 1))%Z with la by lia.
    eapply Qle_trans; [exact HA1|]. rewrite <- Hxb.
    apply Qmult_le_l; [assumption | now apply Qlt_le_weak].
Qed.

Lemma ilog2_unique (x : Q) (k : Z) :
  pow2 k <= x -> x < pow2 (k + 1) -> ilog2 x = k.
Proof.
  intros Hlo Hhi.
  assert (Hx : 0 < x) by (eapply Qlt_le_trans; [apply (pow2_pos k) | exact Hlo]).
  destruct (ilog2_spec x Hx) as [Hlo' Hhi'].
  assert (k < ilog2 x + 1)%Z
    by (apply pow2_lt_inv; eapply Qle_lt_trans; eassumption).
  assert (ilog2 x < k + 1)%Z
    by (apply pow2_lt_inv; eapply Qle_lt_trans; eassumption).
  lia.
Qed.

Lemma ilog2_comp (x y : Q) : 0 < x -> x == y -> ilog2 x = ilog2 y.
Proof.
  intros Hx Hxy. symmetry. destruct (ilog2_spec x Hx) as [Hlo Hhi].
  apply ilog2_unique; now rewrite <- Hxy.
Qed.

Lemma round_of_pos (x : Q) : 0 < x -> round x = round_pos x.
Proof.
  intros Hx. pose proof (Qnum_pos x Hx). unfold round.
  destruct (Qnum x); [lia | reflexivity | lia].
Qed.

Lemma round_of_zero (x : Q) : x == 0 -> round x = 0.
Proof.
  intros Hx. unfold round. destruct x as [a b]. unfold Qeq in Hx. simpl in *.
  assert (a = 0%Z) by lia. now subst a.
Qed.

Lemma round_pos_comp (x y : Q) : 0 < x -> x == y -> round_pos x = round_pos y.
Proof.
  intros Hx Hxy. unfold round_pos. rewrite (ilog2_comp x y Hx Hxy).
  f_equal. f_equal. apply rne_comp. now rewrite Hxy.
Qed.

Lemma round_comp_pos (x y : Q) : 0 <= x -> x == y -> round x = round y.
Proof.
  intros Hx Hxy. destruct (Qle_lt_or_eq _ _ Hx) as [Hpos|Hz].
  - rewrite !round_of_pos by (try rewrite <- Hxy; assumption).
    now apply round_pos_comp.
  - rewrite !round_of_zero; [reflexivity | now rewrite <- Hxy, <- Hz | now rewrite <- Hz].
Qed.

Lemma round_nonneg (x : Q) : 0 <= x -> 0 <= round x.
Proof.
  intros Hx. destruct (Qle_lt_or_eq _ _ Hx) as [Hpos|Hz].
  - rewrite round_of_pos by assumption. unfold round_pos.
    set (e := Z.max _ _). pose proof (pow2_pos e) as Hp.
    apply Qmult_le_0_compat; [|now apply Qlt_le_weak].
    change 0 with (inject_Z 0). rewrite <- Zle_Qle. apply rne_ge_Z.
    change (inject_Z 0) with 0. apply Qle_shift_div_l; [assumption|]. lra.
  - rewrite round_of_zero by (now rewrite <- Hz). apply Qle_refl.
Qed.

(** An integer up to 2^53 lies on the grid used to round any positive
    [x] below it. *)
Lemma int_on_grid (x : Q) (k : Z) :
  0 < x -> x <= inject_Z k -> (k <= 2 ^ 53)%Z ->
  exists n, inject_Z k == inject_Z n * pow2 (Z.max (ilog2 x - 52) (-1074)).
Proof.
  intros Hx Hxk Hk. destruct (ilog2_spec x Hx) as [Hlo _].
  assert (Hk53 : inject_Z k <= pow2 53)
    by (rewrite (pow2_Z 53) by lia; now rewrite <- Zle_Qle).
  assert (Hl : (ilog2 x <= 53)%Z).
  { apply (Qpower_le_compat_l_inv 2); [|reflexivity].
    fold (pow2 (ilog2 x)). fold (pow2 53). lra. }
  set (e := Z.max (ilog2 x - 52) (-1074)).
  destruct (Z_le_gt_dec e 0) as [He|He].
  - exists (k * 2 ^ (- e))%Z.
    rewrite inject_Z_mult, <- (pow2_Z (- e)) by lia.
    rewrite <- Qmult_assoc, (Qmult_comm (pow2 (- e))), pow2_cancel. ring.
  - assert (Hl53 : ilog2 x = 53%Z) by lia.
    assert (He1 : e = 1%Z) by lia. rewrite He1.
    rewrite Hl53 in Hlo.
    assert (Hkeq : inject_Z k == pow2 53) by (apply Qle_antisym; lra).
    exists (2 ^ 52)%Z. rewrite Hkeq. reflexivity.
Qed.

(** Rounding never crosses an integer up to 2^53. *)
Lemma round_le_int (x : Q) (k : Z) :
  0 <= x -> x <= inject_Z k -> (k <= 2 ^ 53)%Z -> round x <= inject_Z k.
Proof.
  intros Hx Hxk Hk. destruct (Qle_lt_or_eq _ _ Hx) as [Hpos|Hz].
  - rewrite round_of_pos by assumption. unfold round_pos.
    destruct (int_on_grid x k Hpos Hxk Hk) as [n Hn].
    set (e := Z.max (ilog2 x - 52) (-1074)) in *.
    pose proof (pow2_pos e) as Hp. rewrite Hn.
    apply Qmult_le_compat_r; [|now apply Qlt_le_weak].
    rewrite <- Zle_Qle. apply rne_le_Z.
    apply Qle_shift_div_r; [assumption|]. now rewrite <- Hn.
  - rewrite round_of_zero by (now rewrite <- Hz). lra.
Qed.

Lemma round_ge_int (x : Q) (k : Z) :
  (0 <= k)%Z -> inject_Z k <= x -> x <= pow2 53 -> inject_Z k <= round x.
Proof.
  intros Hk Hkx Hx.
  destruct (Z.eq_dec k 0) as [->|Hk0].
  { apply round_nonneg. change 0 with (inject_Z 0). exact Hkx. }
  assert (Hpos : 0 < x).
  { eapply Qlt_le_trans; [|exact Hkx]. change 0 with (inject_Z 0).
    rewrite <- Zlt_Qlt. lia. }
  rewrite round_of_pos by assumption. unfold round_pos.
  destruct (ilog2_spec x Hpos) as [Hlo _].
  assert (Hl : (ilog2 x <= 53)%Z).
  { apply (Qpower_le_compat_l_inv 2); [|reflexivity].
    fold (pow2 (ilog2 x)). fold (pow2 53). lra. }
  set (e := Z.max (ilog2 x - 52) (-1074)).
  pose proof (pow2_pos e) as Hp.
  destruct (Z_le_gt_dec e 0) as [He|He].
  - assert (Hn : inject_Z k == inject_Z (k * 2 ^ (- e)) * pow2 e).
    { rewrite inject_Z_mult, <- (pow2_Z (- e)) by lia.
      rewrite <- Qmult_assoc, (Qmult_comm (pow2 (- e))), pow2_cancel. ring. }
    rewrite Hn. apply Qmult_le_compat_r; [|now apply Qlt_le_weak].
    rewrite <- Zle_Qle. apply rne_ge_Z.
    apply Qle_shift_div_l; [assumption|]. now rewrite <- Hn.
  - assert (Hl53 : ilog2 x = 53%Z) by lia.
    assert (He1 : e = 1%Z) by lia. rewrite He1 in *.
    rewrite Hl53 in Hlo.
    assert (Hxeq : x == pow2 53) by (apply Qle_antisym; lra).
    rewrite (rne_comp (x / pow2 1) (inject_Z (2 ^ 52)))
      by (rewrite Hxeq; reflexivity).
    rewrite rne_Z. rewrite Hxeq in Hkx.
    eapply Qle_trans; [exact Hkx|]. apply Qle_lteq. right. reflexivity.
Qed.

(** Integers up to 2^53 are binary64 numbers. *)
Lemma round_int (k : Z) :
  (0 <= k <= 2 ^ 53)%Z -> round (inject_Z k) == inject_Z k.
Proof.
  intros [Hk0 Hk].
  assert (H0 : 0 <= inject_Z k)
    by (change 0 with (inject_Z 0); now rewrite <- Zle_Qle).
  apply Qle_antisym.
  - apply round_le_int; [assumption | apply Qle_refl | assumption].
  - apply round_ge_int; [assumption | apply Qle_refl|].
    rewrite (pow2_Z 53) by lia. now rewrite <- Zle_Qle.
Qed.

(** The relative error of rounding a number in the normal range. *)
Lemma round_normal (x : Q) :
  pow2 (-1022) <= x ->
  exists e y,
    round x = inject_Z (rne y) * pow2 e /\ y * pow2 e == x /\
    pow2 52 <= y /\ 0 < pow2 e.
Proof.
  intros Hx.
  assert (Hpos : 0 < x)
    by (eapply Qlt_le_trans; [apply (pow2_pos (-1022)) | exact Hx]).
  destruct (ilog2_spec x Hpos) as [Hlo Hhi].
  assert (Hl : (-1022 <= ilog2 x)%Z).
  { assert (-1022 < ilog2 x + 1)%Z; [|lia].
    apply pow2_lt_inv. eapply Qle_lt_trans; eassumption. }
  rewrite round_of_pos by assumption. unfold round_pos.
  replace (Z.max (ilog2 x - 52) (-1074)) with (ilog2 x - 52)%Z by lia.
  set (e := (ilog2 x - 52)%Z). pose proof (pow2_pos e) as Hp.
  exists e, (x / pow2 e). split; [reflexivity|]. split; [|split; [|exact Hp]].
  - field. intros H0. rewrite H0 in Hp. now apply (Qlt_irrefl 0).
  - apply Qle_shift_div_l; [assumption|].
    rewrite <- pow2_plus. now replace (52 + e)%Z with (ilog2 x) by (unfold e; lia).
Qed.

Lemma round_rel_upper (x : Q) :
  pow2 (-1022) <= x -> round x <= x * (1 + pow2 (-53)).
Proof.
  intros Hx. destruct (round_normal x Hx) as (e & y & -> & Hy & H52 & Hp).
  pose proof (rne_upper y) as Hu. rewrite <- Hy.
  assert (Hhalf : 1 # 2 <= y * pow2 (-53)).
  { assert (Hc : pow2 52 * pow2 (-53) == 1 # 2) by reflexivity.
    rewrite <- Hc. apply Qmult_le_compat_r; [exact H52|].
    apply Qlt_le_weak, pow2_pos. }
  setoid_replace (y * pow2 e * (1 + pow2 (-53)))
    with ((y + y * pow2 (-53)) * pow2 e) by ring.
  apply Qmult_le_compat_r; [lra | now apply Qlt_le_weak].
Qed.

Lemma round_rel_lower (x : Q) :
  pow2 (-1022) <= x -> x * (1 - pow2 (-53)) <= round x.
Proof.
  intros Hx. destruct (round_normal x Hx) as (e & y & -> & Hy & H52 & Hp).
  pose proof (rne_lower y) as Hu. rewrite <- Hy.
  assert (Hhalf : 1 # 2 <= y * pow2 (-53)).
  { assert (Hc : pow2 52 * pow2 (-53) == 1 # 2) by reflexivity.
    rewrite <- Hc. apply Qmult_le_compat_r; [exact H52|].
    apply Qlt_le_weak, pow2_pos. }
  setoid_replace (y * pow2 e * (1 - pow2 (-53)))
    with ((y - y * pow2 (-53)) * pow2 e) by ring.
  apply Qmult_le_compat_r; [lra | now apply Qlt_le_weak].
Qed.

Lemma pow2_nonzero (e : Z) : ~ pow2 e == 0.
Proof.
  intros H. pose proof (pow2_pos e) as Hp. rewrite H in Hp.
  now apply (Qlt_irrefl 0).
Qed.

(** A rounded number of the normal range is a binary64 number. *)
Lemma round_idem (x : Q) :
  pow2 (-1022) <= x -> round (round x) == round x.
Proof.
  intros Hx.
  assert (Hpos : 0 < x)
    by (eapply Qlt_le_trans; [apply (pow2_pos (-1022)) | exact Hx]).
  destruct (ilog2_spec x Hpos) as [Hlo Hhi].
  assert (Hl : (-1022 <= ilog2 x)%Z).
  { assert (-1022 < ilog2 x + 1)%Z; [|lia].
    apply pow2_lt_inv. eapply Qle_lt_trans; eassumption. }
  set (k := ilog2 x) in *. set (e := (k - 52)%Z).
  assert (Hrx : round x = inject_Z (rne (x / pow2 e)) * pow2 e).
  { rewrite (round_of_pos x Hpos). unfold round_pos. fold k.
    now replace (Z.max (k - 52) (-1074)) with e by (unfold e; lia). }
  rewrite Hrx. clear Hrx.
  pose proof (pow2_pos e) as Hp. pose proof (pow2_nonzero e) as Hnz.
  set (y := x / pow2 e).
  assert (Hy52 : pow2 52 <= y).
  { apply Qle_shift_div_l; [assumption|]. rewrite <- pow2_plus.
    now replace (52 + e)%Z with k by (unfold e; lia). }
  assert (Hy53 : y <= pow2 53).
  { apply Qle_shift_div_r; [assumption|]. rewrite <- pow2_plus.
    replace (53 + e)%Z with (k + 1)%Z by (unfold e; lia).
    now apply Qlt_le_weak. }
  set (M := rne y).
  assert (HM52 : (2 ^ 52 <= M)%Z)
    by (apply rne_ge_Z; rewrite <- (pow2_Z 52) by lia; exact Hy52).
  assert (HM53 : (M <= 2 ^ 53)%Z)
    by (apply rne_le_Z; rewrite <- (pow2_Z 53) by lia; exact Hy53).
  set (r := inject_Z M * pow2 e).
  assert (Hrpos : 0 < r).
  { apply Qmult_lt_0_compat; [|assumption]. change 0 with (inject_Z 0).
    rewrite <- Zlt_Qlt. lia. }
  rewrite (round_of_pos r Hrpos). unfold round_pos.
  destruct (Z.eq_dec M (2 ^ 53)) as [Htop|Hlow].
  - assert (Hr : r == pow2 (k + 1)).
    { unfold r. rewrite Htop, <- (pow2_Z 53), <- pow2_plus by lia.
      now replace (53 + e)%Z with (k + 1)%Z by (unfold e; lia). }
    assert (Hkr : ilog2 r = (k + 1)%Z).
    { apply ilog2_unique; rewrite Hr; [apply Qle_refl|].
      apply Qpower_lt_compat_l; [lia | reflexivity]. }
    rewrite Hkr.
    replace (Z.max (k + 1 - 52) (-1074)) with (e + 1)%Z by (unfold e; lia).
    rewrite (rne_comp (r / pow2 (e + 1)) (inject_Z (2 ^ 52))).
    + rewrite rne_Z, Hr, <- (pow2_Z 52), <- pow2_plus by lia.
      now replace (52 + (e + 1))%Z with (k + 1)%Z by (unfold e; lia).
    + rewrite Hr, <- (pow2_Z 52) by lia.
      setoid_replace (pow2 (k + 1)) with (pow2 52 * pow2 (e + 1)).
      * field. apply pow2_nonzero.
      * rewrite <- pow2_plus.
        now replace (52 + (e + 1))%Z with (k + 1)%Z by (unfold e; lia).
  - assert (Hkr : ilog2 r = k).
    { apply ilog2_unique; unfold r.
      - setoid_replace (pow2 k) with (pow2 52 * pow2 e).
        + apply Qmult_le_compat_r; [|now apply Qlt_le_weak].
          rewrite (pow2_Z 52) by lia. now rewrite <- Zle_Qle.
        + rewrite <- pow2_plus.
          now replace (52 + e)%Z with k by (unfold e; lia).
      - setoid_replace (pow2 (k + 1)) with (pow2 53 * pow2 e).
        + apply Qmult_lt_r; [assumption|].
          rewrite (pow2_Z 53) by lia. rewrite <- Zlt_Qlt. lia.
        + rewrite <- pow2_plus.
          now replace (53 + e)%Z with (k + 1)%Z by (unfold e; lia). }
    rewrite Hkr.
    replace (Z.max (k - 52) (-1074)) with e by (unfold e; lia).
    rewrite (rne_comp (r / pow2 e) (inject_Z M)).
    + rewrite rne_Z. reflexivity.
    + unfold r. field. apply pow2_nonzero.
Qed.

End Binary64Facts.

(** * Properties of the planner *)

Section UniqueFacts.

Lemma insert_unique_In (x y : Z) (l : list Z) :
  In y (Np.insert_unique x l) <-> y = x \/ In y l.
Proof.
  induction l as [|z t IH]; simpl.
  - intuition.
  - destruct (x <? z) eqn:Hlt; [simpl; intuition|].
    destruct (x =? z) eqn:Heq.
    + apply Z.eqb_eq in Heq. subst z. simpl. intuition.
    + simpl. rewrite IH. intuition.
Qed.

Lemma insert_unique_HdRel (x y : Z) (l : list Z) :
  y < x -> HdRel Z.lt y l -> HdRel Z.lt y (Np.insert_unique x l).
Proof.
  intros Hyx Hhd. destruct l as [|z t]; simpl.
  - now constructor.
  - destruct (x <? z); [now constructor|].
    destruct (x =? z); [assumption|].
    inversion Hhd; subst. now constructor.
Qed.

Lemma insert_unique_Sorted (x : Z) (l : list Z) :
  Sorted Z.lt l -> Sorted Z.lt (Np.insert_unique x l).
Proof.
  induction 1 as [|z t Hs IH Hhd]; simpl.
  - repeat constructor.
  - destruct (x <? z) eqn:Hlt.
    + apply Z.ltb_lt in Hlt. repeat constructor; assumption.
    + destruct (x =? z) eqn:Heq.
      * now constructor.
      * apply Z.ltb_ge in Hlt. apply Z.eqb_neq in Heq.
        constructor; [exact IH|].
        apply insert_unique_HdRel; [lia | exact Hhd].
Qed.

Lemma unique_In (y : Z) (a : list Z) : In y (Np.unique a) <-> In y a.
Proof.
  unfold Np.unique. induction a as [|x t IH]; simpl.
  - tauto.
  - rewrite insert_unique_In, IH. intuition.
Qed.

Lemma unique_Sorted (a : list Z) : Sorted Z.lt (Np.unique a).
Proof.
  unfold Np.unique. induction a as [|x t IH]; simpl.
  - constructor.
  - now apply insert_unique_Sorted.
Qed.

Lemma unique_StronglySorted (a : list Z) : StronglySorted Z.lt (Np.unique a).
Proof.
  apply Sorted_StronglySorted; [|apply unique_Sorted].
  intros x y z. apply Z.lt_trans.
Qed.

Lemma unique_nonempty (a : list Z) : a <> [] -> Np.unique a <> [].
Proof.
  destruct a as [|x t]; [congruence|]. intros _ Hnil.
  assert (Hin : In x (Np.unique (x :: t))) by (apply unique_In; now left).
  rewrite Hnil in Hin. inversion Hin.
Qed.

End UniqueFacts.

Section LinspaceFacts.

Import Binary64.

Lemma arange_length (num : Z) : List.length (Np.arange num) = Z.to_nat num.
Proof. unfold Np.arange. now rewrite length_map, length_seq. Qed.

Lemma arange_nth (num i : Z) :
  0 <= i < num -> nth (Z.to_nat i) (Np.arange num) 0 = i.
Proof.
  intros Hi. unfold Np.arange.
  change 0 with (Z.of_nat 0). rewrite map_nth.
  rewrite seq_nth by lia. simpl. lia.
Qed.

Lemma linspace_length (start stop num : Z) :
  List.length (Np.linspace start stop num) = Z.to_nat num.
Proof. unfold Np.linspace. now rewrite length_map, arange_length. Qed.

Lemma linspace_nth (start stop num i : Z) :
  0 <= i < num ->
  nth (Z.to_nat i) (Np.linspace start stop num) 0
  = Np.astype_int64
      (Qfloor (if (1 <? num) && (i =? num - 1) then Np.float64 stop
               else Np.linspace_y start stop num i)).
Proof.
  intros Hi. unfold Np.linspace.
  set (g := fun i0 : Z => Np.astype_int64 _).
  rewrite (nth_indep _ 0 (g 0)) by (rewrite length_map, arange_length; lia).
  rewrite map_nth. now rewrite arange_nth.
Qed.

Lemma float64_int (n : Z) :
  0 <= n <= 2 ^ 53 -> (Np.float64 n == inject_Z n)%Q.
Proof. intros Hn. unfold Np.float64. now apply round_int. Qed.

Lemma float64_zero : Np.float64 0 = 0%Q.
Proof. reflexivity. Qed.

Lemma astype_int64_small (z : Z) :
  0 <= z <= 2 ^ 53 -> Np.astype_int64 z = z.
Proof.
  intros Hz. unfold Np.astype_int64.
  replace (- 2 ^ 63 <=? z) with true by (symmetry; apply Z.leb_le; lia).
  now replace (z <? 2 ^ 63) with true by (symmetry; apply Z.ltb_lt; lia).
Qed.

Lemma inject_Z_nonneg (n : Z) : 0 <= n -> (0 <= inject_Z n)%Q.
Proof. intros H. change 0%Q with (inject_Z 0). now rewrite <- Zle_Qle. Qed.

Lemma inject_Z_pos (n : Z) : 0 < n -> (0 < inject_Z n)%Q.
Proof. intros H. change 0%Q with (inject_Z 0). now rewrite <- Zlt_Qlt. Qed.

Lemma pow2_m53 : (pow2 (-53) == 1 # 9007199254740992)%Q.
Proof. reflexivity. Qed.

(** The step of the array: [stop / (num - 1)] rounded once. *)
Lemma step_bounds (stop d : Z) :
  1 <= stop <= 2 ^ 53 -> 1 <= d <= 2 ^ 53 ->
  let s := round (inject_Z stop / inject_Z d) in
  (pow2 (-54) <= s /\
   s * inject_Z d <= inject_Z stop * (1 + pow2 (-53)) /\
   inject_Z stop * (1 - pow2 (-53)) <= s * inject_Z d)%Q.
Proof.
  intros Hstop Hd s.
  pose proof (inject_Z_pos d ltac:(lia)) as HD.
  assert (HD53 : (inject_Z d <= 9007199254740992)%Q)
    by (change 9007199254740992%Q with (inject_Z (2 ^ 53));
        rewrite <- Zle_Qle; lia).
  assert (HM1 : (1 <= inject_Z stop)%Q)
    by (change 1%Q with (inject_Z 1); rewrite <- Zle_Qle; lia).
  set (x := (inject_Z stop / inject_Z d)%Q) in *.
  assert (HxD : (x * inject_Z d == inject_Z stop)%Q).
  { unfold x. field. intros H0. rewrite H0 in HD. now apply (Qlt_irrefl 0). }
  assert (Hx53 : (pow2 (-53) <= x)%Q).
  { unfold x. apply Qle_shift_div_l; [assumption|]. rewrite pow2_m53. nra. }
  assert (Hx : (pow2 (-1022) <= x)%Q).
  { eapply Qle_trans; [|exact Hx53]. apply pow2_le_mono. lia. }
  pose proof (round_rel_upper x Hx) as Hup.
  pose proof (round_rel_lower x Hx) as Hlo.
  fold s in Hup, Hlo. rewrite pow2_m53 in *.
  assert (H54 : (pow2 (-54) == 1 # 18014398509481984)%Q) by reflexivity.
  rewrite H54. repeat split; nra.
Qed.

(** Within the bounds, entry [i] of the array [y] is
    [i * (stop / (num - 1))], rounded after the division and after the
    multiplication. *)
Lemma linspace_y_eq (stop num i : Z) :
  1 <= stop <= 2 ^ 53 -> 2 <= num <= 2 ^ 53 -> 0 <= i < num ->
  (Np.linspace_y 0 stop num i
   == round (inject_Z i * round (inject_Z stop / inject_Z (num - 1))))%Q.
Proof.
  intros Hstop Hnum Hi. unfold Np.linspace_y. rewrite float64_zero.
  set (d := num - 1). assert (Hd : 1 <= d <= 2 ^ 53) by (unfold d; lia).
  replace (0 <? d) with true by (symmetry; apply Z.ltb_lt; lia).
  destruct (step_bounds stop d Hstop Hd) as (Hs54 & Hsup & Hslo).
  set (s := round (inject_Z stop / inject_Z d)) in *.
  pose proof (float64_int stop ltac:(lia)) as Hfstop.
  pose proof (float64_int d ltac:(lia)) as Hfd.
  pose proof (float64_int i ltac:(lia)) as Hfi.
  pose proof (inject_Z_nonneg stop ltac:(lia)) as HM.
  pose proof (inject_Z_pos d ltac:(lia)) as HD.
  pose proof (inject_Z_nonneg i ltac:(lia)) as HI.
  pose proof (pow2_pos (-54)) as Hp54.
  assert (Hdelta : round (Np.float64 stop - 0) = Np.float64 stop).
  { unfold Np.float64 at 2. apply round_comp_pos; rewrite Hfstop; lra. }
  rewrite Hdelta.
  assert (Hstep : round (Np.float64 stop / Np.float64 d) = s).
  { unfold s. apply round_comp_pos.
    - rewrite Hfstop, Hfd. apply Qle_shift_div_l; [assumption|]. lra.
    - now rewrite Hfstop, Hfd. }
  rewrite Hstep.
  assert (Hspos : (0 < s)%Q) by lra.
  replace (Qeq_bool s 0) with false.
  2:{ symmetry. apply not_true_is_false. intros H.
      apply Qeq_bool_iff in H. rewrite H in Hspos.
      now apply (Qlt_irrefl 0). }
  assert (Hy : round (Np.float64 i * s) = round (inject_Z i * s)).
  { apply round_comp_pos; rewrite Hfi; [nra | reflexivity]. }
  rewrite Hy.
  assert (Hnn : (0 <= round (inject_Z i * s))%Q)
    by (apply round_nonneg; nra).
  rewrite (round_comp_pos (round (inject_Z i * s) + 0)
                          (round (inject_Z i * s))) by lra.
  destruct (Z.eq_dec i 0) as [->|Hi0].
  - rewrite (round_of_zero (inject_Z 0 * s)) by ring. reflexivity.
  - apply round_idem.
    assert (H1 : (1 <= inject_Z i)%Q)
      by (change 1%Q with (inject_Z 1); rewrite <- Zle_Qle; lia).
    eapply Qle_trans; [apply (pow2_le_mono (-1022) (-54)); lia|]. nra.
Qed.

(** The value of an entry before the last: between 0 and [stop], and
    within two roundings of [i * stop / (num - 1)]. *)
Lemma linspace_y_bounds (stop num i : Z) :
  1 <= stop <= 2 ^ 53 -> 2 <= num <= 2 ^ 53 -> 0 <= i < num - 1 ->
  let x := (inject_Z (i * stop) / inject_Z (num - 1))%Q in
  let y := Np.linspace_y 0 stop num i in
  (0 <= y /\ y <= inject_Z stop /\
   y <= x * (1 + pow2 (-53)) * (1 + pow2 (-53)) /\
   x * (1 - pow2 (-53)) * (1 - pow2 (-53)) <= y)%Q.
Proof.
  intros Hstop Hnum Hi x y.
  assert (Hy : (y == round (inject_Z i * round (inject_Z stop / inject_Z (num - 1))))%Q)
    by (apply linspace_y_eq; lia).
  set (d := num - 1) in *. assert (Hd : 1 <= d <= 2 ^ 53) by (unfold d; lia).
  destruct (step_bounds stop d Hstop Hd) as (Hs54 & Hsup & Hslo).
  set (s := round (inject_Z stop / inject_Z d)) in *.
  pose proof (inject_Z_nonneg stop ltac:(lia)) as HM.
  pose proof (inject_Z_pos d ltac:(lia)) as HD.
  pose proof (inject_Z_nonneg i ltac:(lia)) as HI.
  pose proof (pow2_pos (-54)) as Hp54.
  assert (HId : (inject_Z i <= inject_Z d - 1)%Q).
  { assert (H : (inject_Z (i + 1) <= inject_Z d)%Q)
      by (rewrite <- Zle_Qle; unfold d; lia).
    rewrite inject_Z_plus in H. change (inject_Z 1) with 1%Q in H. lra. }
  assert (HD53 : (inject_Z d <= 9007199254740992)%Q)
    by (change 9007199254740992%Q with (inject_Z (2 ^ 53));
        rewrite <- Zle_Qle; lia).
  assert (HxD : (x * inject_Z d == inject_Z i * inject_Z stop)%Q).
  { unfold x. rewrite inject_Z_mult. field.
    intros H0. rewrite H0 in HD. now apply (Qlt_irrefl 0). }
  rewrite pow2_m53 in *.
  assert (His : (inject_Z i * s <= inject_Z stop)%Q).
  { apply (Qmult_le_r _ _ (inject_Z d) HD). nra. }
  assert (Hnn : (0 <= inject_Z i * s)%Q) by nra.
  rewrite Hy. split; [now apply round_nonneg|].
  split; [apply round_le_int; [assumption | assumption | lia]|].
  destruct (Z.eq_dec i 0) as [->|Hi0].
  { rewrite (round_of_zero (inject_Z 0 * s)) by ring.
    assert (Hx0 : (x == 0)%Q) by (unfold x; simpl; reflexivity).
    rewrite Hx0. split; lra. }
  assert (H1 : (1 <= inject_Z i)%Q)
    by (change 1%Q with (inject_Z 1); rewrite <- Zle_Qle; lia).
  assert (Hnorm : (pow2 (-1022) <= inject_Z i * s)%Q).
  { eapply Qle_trans; [apply (pow2_le_mono (-1022) (-54)); lia|]. nra. }
  pose proof (round_rel_upper _ Hnorm) as Hup.
  pose proof (round_rel_lower _ Hnorm) as Hlo.
  rewrite pow2_m53 in Hup, Hlo.
  assert (Hxs1 : (inject_Z i * s <= x * (1 + (1 # 9007199254740992)))%Q).
  { apply (Qmult_le_r _ _ (inject_Z d) HD). nra. }
  assert (Hxs2 : (x * (1 - (1 # 9007199254740992)) <= inject_Z i * s)%Q).
  { apply (Qmult_le_r _ _ (inject_Z d) HD). nra. }
  split; nra.
Qed.

Lemma linspace_first (stop num : Z) :
  1 <= num -> nth 0 (Np.linspace 0 stop num) 0 = 0.
Proof.
  intros Hnum. change 0%nat with (Z.to_nat 0).
  rewrite linspace_nth by lia.
  replace ((1 <? num) && (0 =? num - 1)) with false.
  2:{ symmetry. apply andb_false_iff.
      destruct (Z.eq_dec num 1) as [->|H]; [now left|].
      right. apply Z.eqb_neq. lia. }
  assert (Hy : Np.linspace_y 0 stop num 0 = 0%Q).
  { unfold Np.linspace_y. rewrite float64_zero.
    assert (Hz : forall y, (y == 0)%Q -> round (round y + 0) = 0%Q).
    { intros y Hy0. rewrite (round_of_zero y Hy0). reflexivity. }
    destruct (0 <? num - 1); [destruct (Qeq_bool _ 0)|]; apply Hz.
    - rewrite (round_of_zero (0 / _)) by (unfold Qdiv; ring). ring.
    - ring.
    - ring. }
  rewrite Hy. reflexivity.
Qed.

Lemma linspace_last (stop num : Z) :
  1 < num -> 0 <= stop <= 2 ^ 53 ->
  nth (Z.to_nat (num - 1)) (Np.linspace 0 stop num) 0 = stop.
Proof.
  intros Hnum Hstop. rewrite linspace_nth by lia.
  replace (1 <? num) with true by (symmetry; apply Z.ltb_lt; lia).
  rewrite Z.eqb_refl. cbn [andb]. cbv iota.
  rewrite (Qfloor_comp _ _ (float64_int stop Hstop)), Qfloor_Z.
  now apply astype_int64_small.
Qed.

Lemma linspace_In_range (stop num x : Z) :
  1 <= stop <= 2 ^ 53 -> num <= 2 ^ 53 ->
  In x (Np.linspace 0 stop num) -> 0 <= x <= stop.
Proof.
  intros Hstop Hnum Hin.
  destruct (In_nth _ _ 0 Hin) as [k [Hk Hx]].
  rewrite linspace_length in Hk.
  assert (Hi : 0 <= Z.of_nat k < num) by lia.
  rewrite <- (Nat2Z.id k) in Hx. set (i := Z.of_nat k) in *.
  destruct (Z.eq_dec num 1) as [Hone|Hmany].
  { assert (i = 0) by lia. subst num. replace i with 0 in Hx by lia.
    change (Z.to_nat 0) with 0%nat in Hx.
    rewrite linspace_first in Hx by lia. lia. }
  destruct (Z.eq_dec i (num - 1)) as [Hlast|Hmid].
  { rewrite Hlast, linspace_last in Hx by lia. lia. }
  rewrite linspace_nth in Hx by lia.
  replace (i =? num - 1) with false in Hx by (symmetry; apply Z.eqb_neq; lia).
  rewrite andb_false_r in Hx.
  destruct (linspace_y_bounds stop num i Hstop ltac:(lia) ltac:(lia))
    as (Hy0 & HyM & _).
  assert (Hf0 : 0 <= Qfloor (Np.linspace_y 0 stop num i)).
  { apply Z.le_trans with (Qfloor (inject_Z 0));
      [now rewrite Qfloor_Z | now apply Qfloor_resp_le]. }
  assert (HfM : Qfloor (Np.linspace_y 0 stop num i) <= stop).
  { apply Z.le_trans with (Qfloor (inject_Z stop));
      [now apply Qfloor_resp_le | rewrite Qfloor_Z; lia]. }
  rewrite astype_int64_small in Hx by lia. lia.
Qed.

End LinspaceFacts.

Section PlannerClaims.

Lemma plan_degenerate (total_frames sr interval_seconds num_samples : Z) :
  sr <= 0 \/ total_frames <= 0 \/ sr * interval_seconds <= 0 ->
  compute_sample_positions total_frames sr interval_seconds num_samples
  = ([], sr * interval_seconds).
Proof.
  intros H. unfold compute_sample_positions.
  replace ((sr <=? 0) || (total_frames <=? 0) || (sr * interval_seconds <=? 0))
    with true; [reflexivity|].
  symmetry. rewrite !orb_true_iff, !Z.leb_le. tauto.
Qed.

Lemma plan_long (total_frames sr interval_seconds num_samples : Z) :
  0 < sr -> 0 < total_frames -> 0 < sr * interval_seconds ->
  sr * interval_seconds < total_frames ->
  compute_sample_positions total_frames sr interval_seconds num_samples
  = (Np.unique (linspace_starts total_frames (sr * interval_seconds)
                                num_samples),
     sr * interval_seconds).
Proof.
  intros Hsr Htot Hfpi Hlong. unfold compute_sample_positions.
  replace ((sr <=? 0) || (total_frames <=? 0) || (sr * interval_seconds <=? 0))
    with false.
  - replace (total_frames <=? sr * interval_seconds) with false; [reflexivity|].
    symmetry. apply Z.leb_gt. lia.
  - symmetry. rewrite !orb_false_iff, !Z.leb_gt. auto.
Qed.

(** C5. For every valid input (positive sample rate, positive frame count,
    positive chunk length) whose frame count does not exceed the chunk
    length, the plan is the single offset 0, whatever the requested number
    of samples. *)
Theorem short_file_single_offset
    (total_frames sr interval_seconds num_samples : Z) :
  0 < sr -> 0 < total_frames -> 0 < sr * interval_seconds ->
  total_frames <= sr * interval_seconds ->
  compute_sample_positions total_frames sr interval_seconds num_samples
  = ([0], sr * interval_seconds).
Proof.
  intros Hsr Htot Hfpi Hshort. unfold compute_sample_positions.
  replace ((sr <=? 0) || (total_frames <=? 0) || (sr * interval_seconds <=? 0))
    with false.
  - replace (total_frames <=? sr * interval_seconds) with true; [reflexivity|].
    symmetry. now apply Z.leb_le.
  - symmetry. rewrite !orb_false_iff, !Z.leb_gt. auto.
Qed.

(** C6, as amended. For every valid input with more frames than one chunk,
    with [max_start = total_frames - frames_per_interval] and the number of
    samples at most 2^53, the planner generates [n = max(1, num_samples)]
    offsets with [np.linspace]: the first is 0; for [n >= 2] the last is
    [max_start], and offset [i] is the floor of a binary64 value within two
    roundings (a factor [(1 +- 2^-53)^2]) of the evenly spaced position
    [i * max_start / (n - 1)]; all lie between 0 and [max_start]. The plan
    is that list sorted and deduplicated: it has the same members, is
    strictly ascending, and every offset [o] of it satisfies [0 <= o] and
    [o + frames_per_interval <= total_frames]. *)
Theorem long_file_plan (total_frames sr interval_seconds num_samples : Z) :
  0 < sr -> 0 < total_frames -> 0 < sr * interval_seconds ->
  sr * interval_seconds < total_frames ->
  total_frames - sr * interval_seconds <= 2 ^ 53 ->
  num_samples <= 2 ^ 53 ->
  let frames_per_interval := sr * interval_seconds in
  let max_start := total_frames - frames_per_interval in
  let n := Z.max 1 num_samples in
  let raw := linspace_starts total_frames frames_per_interval num_samples in
  let plan :=
    compute_sample_positions total_frames sr interval_seconds num_samples in
  Z.of_nat (List.length raw) = n /\
  nth 0 raw 0 = 0 /\
  (1 < n -> nth (Z.to_nat (n - 1)) raw 0 = max_start) /\
  (1 < n -> forall i, 0 <= i < n ->
     let x := (inject_Z (i * max_start) / inject_Z (n - 1))%Q in
     let u := Binary64.pow2 (-53) in
     (inject_Z (nth (Z.to_nat i) raw 0%Z) <= x * (1 + u) * (1 + u) /\
      x * (1 - u) * (1 - u) < inject_Z (nth (Z.to_nat i) raw 0%Z) + 1)%Q) /\
  (forall o, In o raw -> 0 <= o <= max_start) /\
  plan = (Np.unique raw, frames_per_interval) /\
  (forall o, In o (fst plan) <-> In o raw) /\
  StronglySorted Z.lt (fst plan) /\
  (forall o, In o (fst plan) ->
     0 <= o /\ o + frames_per_interval <= total_frames).
Proof.
  intros Hsr Htot Hfpi Hlong Hbig Hnum fpi max_start n raw plan.
  assert (Hplan : plan = (Np.unique raw, fpi)) by now apply plan_long.
  assert (Hn : 1 <= n <= 2 ^ 53) by (unfold n; lia).
  assert (Hm : 1 <= max_start <= 2 ^ 53) by (unfold max_start, fpi; lia).
  assert (Hrange : forall o, In o raw -> 0 <= o <= max_start).
  { intros o Ho. unfold raw, linspace_starts in Ho.
    apply linspace_In_range in Ho; [exact Ho | exact Hm | fold n; lia]. }
  split; [unfold raw, linspace_starts; rewrite linspace_length; fold n; lia|].
  split; [unfold raw, linspace_starts; apply linspace_first; lia|].
  split; [intros Hbig2; unfold raw, linspace_starts; apply linspace_last; fold n; lia|].
  split.
  { intros Hbig2 i Hi x u. unfold raw, linspace_starts. fold max_start n.
    destruct (Z.eq_dec i (n - 1)) as [->|Hmid].
    - rewrite linspace_last by lia.
      assert (Hx : (x == inject_Z max_start)%Q).
      { unfold x. rewrite inject_Z_mult. field.
        intros H0. pose proof (inject_Z_pos (n - 1) ltac:(lia)) as Hp.
        rewrite H0 in Hp. now apply (Qlt_irrefl 0). }
      pose proof (inject_Z_nonneg max_start ltac:(lia)) as HM.
      unfold u. rewrite Hx, pow2_m53. split; nra.
    - rewrite linspace_nth by lia.
      replace (i =? n - 1) with false by (symmetry; apply Z.eqb_neq; lia).
      rewrite andb_false_r.
      destruct (linspace_y_bounds max_start n i Hm ltac:(lia) ltac:(lia))
        as (Hy0 & HyM & Hyup & Hylo).
      fold x u in Hyup, Hylo.
      set (y := Np.linspace_y 0 max_start n i) in *.
      assert (Hf0 : 0 <= Qfloor y).
      { apply Z.le_trans with (Qfloor (inject_Z 0));
          [now rewrite Qfloor_Z | now apply Qfloor_resp_le]. }
      assert (HfM : Qfloor y <= max_start).
      { apply Z.le_trans with (Qfloor (inject_Z max_start));
          [now apply Qfloor_resp_le | rewrite Qfloor_Z; lia]. }
      rewrite astype_int64_small by lia.
      pose proof (Qfloor_le y) as Hfl. pose proof (Qlt_floor y) as Hlt.
      rewrite inject_Z_plus in Hlt. change (inject_Z 1) with 1%Q in Hlt.
      split; lra. }
  split; [exact Hrange|]. split; [exact Hplan|].
  rewrite Hplan. simpl fst. split; [|split].
  - intros o. apply unique_In.
  - apply unique_StronglySorted.
  - intros o Ho. apply (proj1 (unique_In _ _)) in Ho.
    apply Hrange in Ho. unfold max_start in Ho. lia.
Qed.

End PlannerClaims.

Lemma short_file_single_offset_witness :
  compute_sample_positions 5 1 7 16 = ([0], 1 * 7).
Proof. apply short_file_single_offset; lia. Defined.

Lemma long_file_plan_witness :
  Z.of_nat (List.length (linspace_starts 10 (1 * 7) 16)) = Z.max 1 16 /\
  StronglySorted Z.lt (fst (compute_sample_positions 10 1 7 16)) /\
  (forall o, In o (fst (compute_sample_positions 10 1 7 16)) ->
     0 <= o /\ o + 1 * 7 <= 10).
Proof.
  pose proof (long_file_plan 10 1 7 16 ltac:(lia) ltac:(lia) ltac:(lia)
              ltac:(lia) ltac:(lia) ltac:(lia)) as H.
  cbv zeta in H.
  destruct H as (Hlen & _ & _ & _ & _ & _ & _ & Hsorted & Hbound).
  split; [exact Hlen|]. split; [exact Hsorted | exact Hbound].
Defined.

(** C6 as stated fails in two ways. With [num_samples = 0] the input is
    valid and longer than one chunk, yet the planner does not generate 0
    offsets: it generates the single offset 0 and the plan is [[0]]. With
    [max_start = 2^53 + 3], which is not a binary64 number, the last
    offset is [2^53 + 4] and the chunk read there ends past the last
    frame. *)
Lemma long_file_plan_counterexamples :
  (0 < 1 /\ 0 < 100 /\ 0 < 1 * 7 /\ 1 * 7 < 100 /\
   Z.of_nat (List.length (linspace_starts 100 (1 * 7) 0)) <> 0 /\
   compute_sample_positions 100 1 7 0 = ([0], 7)) /\
  (0 < 1 /\ 0 < 2 ^ 53 + 10 /\ 0 < 1 * 7 /\ 1 * 7 < 2 ^ 53 + 10 /\
   compute_sample_positions (2 ^ 53 + 10) 1 7 2 = ([0; 2 ^ 53 + 4], 7) /\
   ~ (2 ^ 53 + 4) + 7 <= 2 ^ 53 + 10).
Proof.
  split.
  - do 4 (split; [lia|]). split.
    + vm_compute. discriminate.
    + vm_compute. reflexivity.
  - do 4 (split; [lia|]). split.
    + vm_compute. reflexivity.
    + lia.
Qed.

(** * Properties of the classifier *)

Section FloatFacts.

Lemma Qle_bool_false (a b : Q) : Qle_bool a b = false <-> (b < a)%Q.
Proof.
  split.
  - intros H. apply Qnot_le_lt. intros Hle.
    apply Qle_bool_iff in Hle. congruence.
  - intros H. destruct (Qle_bool a b) eqn:E; [|reflexivity].
    apply Qle_bool_iff in E. exfalso. now apply (Qlt_not_le b a).
Qed.

(** Comparisons with NaN are false. *)
Lemma fgtb_not_nan (x y : float) :
  fgtb x y = true -> is_nan x = false /\ is_nan y = false.
Proof. destruct x, y; simpl; intros H; try discriminate; now split. Qed.

Lemma fle_not_nan (x y : float) :
  fle x y -> is_nan x = false /\ is_nan y = false.
Proof.
  unfold fle. destruct x, y; simpl; intros H; try discriminate; now split.
Qed.

Lemma fgtb_false_fle (x y : float) :
  is_nan x = false -> is_nan y = false -> fgtb x y = false -> fle x y.
Proof.
  unfold fle. destruct x, y; simpl; intros Hx Hy H;
    try discriminate; try reflexivity.
  now apply negb_false_iff.
Qed.

Lemma fle_fgtb_false (x y : float) : fle x y -> fgtb x y = false.
Proof.
  unfold fle. destruct x, y; simpl; intros H;
    try discriminate; try reflexivity.
  now rewrite H.
Qed.

Lemma fle_refl (x : float) : is_nan x = false -> fle x x.
Proof.
  unfold fle. destruct x; simpl; intros H; try discriminate; try reflexivity.
  apply Qle_bool_iff, Qle_refl.
Qed.

Lemma fle_trans (x y z : float) : fle x y -> fle y z -> fle x z.
Proof.
  unfold fle. destruct x, y, z; simpl; intros H1 H2;
    try discriminate; try reflexivity.
  apply Qle_bool_iff in H1, H2. apply Qle_bool_iff.
  eapply Qle_trans; eassumption.
Qed.

Lemma flt_fle (x y : float) : flt x y -> fle x y.
Proof.
  unfold flt, fle. destruct x, y; simpl; intros H;
    try discriminate; try reflexivity.
  apply negb_true_iff, Qle_bool_false in H.
  now apply Qle_bool_iff, Qlt_le_weak.
Qed.

Lemma fle_flt_trans (x y z : float) : fle x y -> flt y z -> flt x z.
Proof.
  unfold flt, fle. destruct x, y, z; simpl; intros H1 H2;
    try discriminate; try reflexivity.
  apply Qle_bool_iff in H1. apply negb_true_iff, Qle_bool_false in H2.
  apply negb_true_iff, Qle_bool_false.
  eapply Qle_lt_trans; eassumption.
Qed.

Lemma flt_fle_trans (x y z : float) : flt x y -> fle y z -> flt x z.
Proof.
  unfold flt, fle. destruct x, y, z; simpl; intros H1 H2;
    try discriminate; try reflexivity.
  apply Qle_bool_iff in H2. apply negb_true_iff, Qle_bool_false in H1.
  apply negb_true_iff, Qle_bool_false.
  eapply Qlt_le_trans; eassumption.
Qed.

Lemma flt_not_fle (x y : float) : flt x y -> ~ fle y x.
Proof.
  unfold flt, fle. intros H Hle. apply fle_fgtb_false in Hle. congruence.
Qed.

Lemma feq_refl (x : float) : is_nan x = false -> feq x x.
Proof. intros H. split; now apply fle_refl. Qed.

Lemma feq_Finite (a b : Q) : feq (Finite a) (Finite b) <-> (a == b)%Q.
Proof.
  unfold feq, fle. simpl. rewrite !Qle_bool_iff. split.
  - intros [H1 H2]. now apply Qle_antisym.
  - intros H. rewrite H. split; apply Qle_refl.
Qed.

(** The test of the loop is false exactly for a peak that is NaN or at
    most the threshold. *)
Lemma not_above_iff (cfg : Config) (peak : float) :
  not_above cfg peak <->
  is_nan peak = true \/ fle peak (Finite (SILENCE_THRESHOLD cfg)).
Proof.
  unfold not_above. split.
  - intros H. destruct (is_nan peak) eqn:E; [now left | right].
    now apply fgtb_false_fle.
  - intros [H|H]; [destruct peak; try discriminate; reflexivity|].
    now apply fle_fgtb_false.
Qed.

Lemma py_max_cases (a b : float) :
  (py_max a b = b /\ flt a b) \/ (py_max a b = a /\ fgtb b a = false).
Proof.
  unfold py_max, flt. destruct (fgtb b a) eqn:E; [left | right]; now split.
Qed.

Lemma py_max_not_nan (a b : float) :
  is_nan a = false -> is_nan (py_max a b) = false.
Proof.
  intros Ha. destruct (py_max_cases a b) as [[-> H]|[-> H]]; [|exact Ha].
  now apply fgtb_not_nan in H.
Qed.

Lemma py_max_l (a b : float) : is_nan a = false -> fle a (py_max a b).
Proof.
  intros Ha. destruct (py_max_cases a b) as [[-> H]|[-> H]];
    [now apply flt_fle | now apply fle_refl].
Qed.

Lemma py_max_r (a b : float) :
  is_nan a = false -> is_nan b = false -> fle b (py_max a b).
Proof.
  intros Ha Hb. destruct (py_max_cases a b) as [[-> H]|[-> H]];
    [now apply fle_refl | now apply fgtb_false_fle].
Qed.

(** The running maximum over a list of peaks, started at a number. *)
Lemma running_max_not_nan (l : list float) (m : float) :
  is_nan m = false -> is_nan (fold_left py_max l m) = false.
Proof.
  revert m. induction l as [|p t IH]; intros m Hm; simpl; [exact Hm|].
  now apply IH, py_max_not_nan.
Qed.

Lemma running_max_ge_init (l : list float) (m : float) :
  is_nan m = false -> fle m (fold_left py_max l m).
Proof.
  revert m. induction l as [|p t IH]; intros m Hm; simpl.
  - now apply fle_refl.
  - eapply fle_trans; [now apply py_max_l | now apply IH, py_max_not_nan].
Qed.


Lemma running_max_attained (l : list float) (m : float) :
  fold_left py_max l m = m \/
  (In (fold_left py_max l m) l /\ is_nan (fold_left py_max l m) = false).
Proof.
  revert m. induction l as [|q t IH]; intros m; simpl.
  - now left.
  - destruct (IH (py_max m q)) as [H|[H Hn]]; [|right; split; [now right|exact Hn]].
    rewrite H. destruct (py_max_cases m q) as [[-> Hlt]|[-> _]]; [right | now left].
    split; [now left|]. now apply fgtb_not_nan in Hlt.
Qed.

Lemma running_max_le (l : list float) (m c : float) :
  fle m c -> (forall p, In p l -> is_nan p = false -> fle p c) ->
  fle (fold_left py_max l m) c.
Proof.
  intros Hm Hl.
  destruct (running_max_attained l m) as [->|[H Hn]];
    [exact Hm | now apply Hl].
Qed.

(** [np.max] of an array: NaN as soon as one entry is, and otherwise at
    least every entry. *)
Lemma np_maximum_nan_l (a b : float) : is_nan a = true -> np_maximum a b = a.
Proof. intros H. unfold np_maximum. now rewrite H. Qed.

Lemma np_maximum_nan_r (a b : float) :
  is_nan a = false -> is_nan b = true -> np_maximum a b = b.
Proof. intros Ha Hb. unfold np_maximum. now rewrite Ha, Hb. Qed.

Lemma np_maximum_numbers (a b : float) :
  is_nan a = false -> is_nan b = false -> np_maximum a b = py_max a b.
Proof. intros Ha Hb. unfold np_maximum. now rewrite Ha, Hb. Qed.

Lemma np_maximum_nan (t : list float) (x : float) :
  is_nan x = true -> fold_left np_maximum t x = x.
Proof.
  intros Hx. induction t as [|b t IH]; cbn [fold_left]; [reflexivity|].
  now rewrite np_maximum_nan_l.
Qed.

Lemma np_maximum_ge_init (t : list float) (x : float) :
  is_nan (fold_left np_maximum t x) = false ->
  fle x (fold_left np_maximum t x).
Proof.
  revert x. induction t as [|b t IH]; intros x Hn; cbn [fold_left] in *.
  - now apply fle_refl.
  - destruct (is_nan x) eqn:Hx.
    { rewrite (np_maximum_nan_l x b Hx), (np_maximum_nan t x Hx) in Hn.
      congruence. }
    destruct (is_nan b) eqn:Hb.
    { rewrite (np_maximum_nan_r x b Hx Hb), (np_maximum_nan t b Hb) in Hn.
      congruence. }
    eapply fle_trans; [|apply IH; exact Hn].
    rewrite (np_maximum_numbers x b Hx Hb). now apply py_max_l.
Qed.

Lemma fabs_nonneg (x : float) : is_nan (fabs x) = false -> fle (Finite 0) (fabs x).
Proof.
  unfold fle. destruct x; simpl; intros H; try discriminate; try reflexivity.
  apply Qle_bool_iff, Qabs_nonneg.
Qed.

Lemma np_max_abs_nonneg (data : Data) :
  is_nan (np_max_abs data) = false -> fle (Finite 0) (np_max_abs data).
Proof.
  unfold np_max_abs. destruct (List.concat data) as [|x t]; simpl; intros Hn.
  - now apply fle_refl.
  - pose proof (np_maximum_ge_init _ _ Hn) as Hge.
    eapply fle_trans; [|exact Hge].
    apply fabs_nonneg. now apply fle_not_nan in Hge.
Qed.

End FloatFacts.

Section LoopFacts.

Variable format_6g : float -> string.
Variable cfg : Config.
Variable str_wav_path : string.
Variable f : SoundFile.
Variables size_bytes sr ch : Z.
Variable duration_sec : Q.
Variable starts : list Z.
Variable fpi : Z.

Let loop : list Z -> float -> Py LoopExit :=
  scan_chunks format_6g cfg str_wav_path f size_bytes sr ch duration_sec
              starts fpi.
Let keep : float -> float -> ScanResult :=
  keep_result format_6g cfg str_wav_path size_bytes sr ch duration_sec starts.
Let thr : Q := SILENCE_THRESHOLD cfg.

Lemma loop_nil (mx : float) (w0 : World) : loop [] mx w0 = (w0, inr (Fallthrough mx)).
Proof. reflexivity. Qed.

Lemma loop_seek_raises (s : Z) (rest : list Z) (mx : float) (w0 : World) (e : exn) :
  sf_seek f s = inl e ->
  loop (s :: rest) mx w0 = (mkWorld (pos w0) (calls w0 ++ [Seek s]), inl e).
Proof.
  intros Hseek. unfold loop. simpl.
  unfold bind, seek, call, lift, bind. simpl. now rewrite Hseek.
Qed.

Lemma loop_read_raises (s : Z) (rest : list Z) (mx : float) (w0 : World) (e : exn) :
  sf_seek f s = inr tt -> sf_read f s fpi = inl e ->
  loop (s :: rest) mx w0 = (mkWorld s (calls w0 ++ visit fpi s), inl e).
Proof.
  intros Hseek Hread. unfold loop. simpl.
  unfold bind, seek, read, call, lift, set_pos, get_pos, bind. simpl.
  rewrite Hseek. simpl. rewrite Hread. simpl.
  now rewrite <- app_assoc.
Qed.

Lemma loop_read (s : Z) (rest : list Z) (mx : float) (w0 : World) (data : Data) :
  sf_seek f s = inr tt -> sf_read f s fpi = inr data ->
  loop (s :: rest) mx w0
  = let w1 := mkWorld (s + Z.of_nat (List.length data))
                      (calls w0 ++ visit fpi s) in
    if size data =? 0 then loop rest mx w1
    else if fgtb (np_max_abs data) (Finite thr)
         then (w1, inr (Return (keep (np_max_abs data)
                                     (py_max mx (np_max_abs data)))))
         else loop rest (py_max mx (np_max_abs data)) w1.
Proof.
  intros Hseek Hread. unfold loop. simpl.
  unfold bind, seek, read, call, lift, set_pos, get_pos, bind. simpl.
  rewrite Hseek. simpl. rewrite Hread. simpl.
  rewrite <- app_assoc. simpl.
  destruct (size data =? 0); [reflexivity|].
  fold thr. destruct (fgtb (np_max_abs data) (Finite thr)); reflexivity.
Qed.

(** A chunk that is read and does not stop the scan: the loop goes on
    with the rest, the running maximum updated by its peak. *)
Lemma loop_quiet (s : Z) (rest : list Z) (mx : float) (w0 : World) :
  quiet cfg f fpi s ->
  exists p,
    loop (s :: rest) mx w0
    = loop rest (fold_left py_max (probed_peaks f fpi [s]) mx)
           (mkWorld p (calls w0 ++ visit fpi s)).
Proof.
  intros [[Hseek [data Hread]] Hle].
  exists (s + Z.of_nat (List.length data)).
  rewrite (loop_read s rest mx w0 data Hseek Hread). cbv zeta.
  unfold probed_peaks, chunk_peak in *. simpl. rewrite Hread in *.
  destruct (size data =? 0); [reflexivity|].
  specialize (Hle _ eq_refl). unfold not_above in Hle.
  fold thr in Hle. rewrite Hle. reflexivity.
Qed.

Lemma probed_peaks_cons (s : Z) (rest : list Z) :
  probed_peaks f fpi (s :: rest)
  = probed_peaks f fpi [s] ++ probed_peaks f fpi rest.
Proof. unfold probed_peaks. simpl. now rewrite app_nil_r. Qed.

Lemma probed_peaks_app (l1 l2 : list Z) :
  probed_peaks f fpi (l1 ++ l2) = probed_peaks f fpi l1 ++ probed_peaks f fpi l2.
Proof. unfold probed_peaks. apply flat_map_app. Qed.

Lemma visits_app (l1 l2 : list Z) :
  visits fpi (l1 ++ l2) = visits fpi l1 ++ visits fpi l2.
Proof. unfold visits. apply flat_map_app. Qed.

(** A run of quiet chunks is passed over. *)
Lemma loop_quiet_prefix (pre rest : list Z) (mx : float) (w0 : World) :
  Forall (quiet cfg f fpi) pre ->
  exists p,
    loop (pre ++ rest) mx w0
    = loop rest (fold_left py_max (probed_peaks f fpi pre) mx)
           (mkWorld p (calls w0 ++ visits fpi pre)).
Proof.
  intros Hq. revert mx w0.
  induction Hq as [|s pre Hs Hpre IH]; intros mx w0.
  - exists (pos w0). simpl. rewrite app_nil_r. now destruct w0.
  - destruct (loop_quiet s (pre ++ rest) mx w0 Hs) as [p1 H1].
    destruct (IH (fold_left py_max (probed_peaks f fpi [s]) mx)
                 (mkWorld p1 (calls w0 ++ visit fpi s))) as [p2 H2].
    exists p2. simpl app. rewrite H1, H2.
    rewrite (probed_peaks_cons s pre), fold_left_app.
    simpl calls. unfold visits. simpl flat_map.
    now rewrite <- app_assoc.
Qed.

Lemma quiet_peaks_not_above (pre : list Z) (p : float) :
  Forall (quiet cfg f fpi) pre -> In p (probed_peaks f fpi pre) ->
  not_above cfg p.
Proof.
  intros Hq Hin. unfold probed_peaks in Hin.
  apply in_flat_map in Hin. destruct Hin as [s [Hs Hp]].
  rewrite Forall_forall in Hq. destruct (Hq s Hs) as [_ Hle].
  destruct (chunk_peak f fpi s) as [q|]; [|inversion Hp].
  destruct Hp as [->|[]]. now apply Hle.
Qed.

(** The loop stops at the first chunk whose peak is above the threshold. *)
Lemma loop_stops_at (pre post : list Z) (k : Z) (data : Data) (mx : float)
    (w0 : World) :
  Forall (quiet cfg f fpi) pre ->
  sf_seek f k = inr tt -> sf_read f k fpi = inr data ->
  (size data =? 0) = false -> flt (Finite thr) (np_max_abs data) ->
  exists p,
    loop (pre ++ k :: post) mx w0
    = (mkWorld p (calls w0 ++ visits fpi (pre ++ [k])),
       inr (Return (keep (np_max_abs data)
                         (py_max (fold_left py_max (probed_peaks f fpi pre) mx)
                                 (np_max_abs data))))).
Proof.
  intros Hq Hseek Hread Hsize Hpeak.
  destruct (loop_quiet_prefix pre (k :: post) mx w0 Hq) as [p Hp].
  exists (k + Z.of_nat (List.length data)). rewrite Hp.
  rewrite (loop_read k post _ _ data Hseek Hread). cbv zeta.
  rewrite Hsize. unfold flt in Hpeak. rewrite Hpeak.
  simpl calls. rewrite visits_app, <- app_assoc.
  reflexivity.
Qed.


(** When the loop returns from inside, it does so at the first chunk whose
    peak is above the threshold. *)
Lemma loop_return_inv (todo : list Z) (mx : float) (w0 w1 : World)
    (res : ScanResult) :
  loop todo mx w0 = (w1, inr (Return res)) ->
  exists pre k post data,
    todo = pre ++ k :: post /\
    Forall (quiet cfg f fpi) pre /\
    sf_seek f k = inr tt /\ sf_read f k fpi = inr data /\
    (size data =? 0) = false /\ flt (Finite thr) (np_max_abs data).
Proof.
  revert mx w0. induction todo as [|s rest IH]; intros mx w0 Hrun.
  - discriminate.
  - destruct (sf_seek f s) as [e|[]] eqn:Hseek.
    { rewrite (loop_seek_raises s rest mx w0 e Hseek) in Hrun. discriminate. }
    destruct (sf_read f s fpi) as [e|data] eqn:Hread.
    { rewrite (loop_read_raises s rest mx w0 e Hseek Hread) in Hrun.
      discriminate. }
    rewrite (loop_read s rest mx w0 data Hseek Hread) in Hrun. cbv zeta in Hrun.
    assert (Hreadable : readable f fpi s) by (split; [assumption | eauto]).
    assert (Hnext : forall mx' w',
              loop rest mx' w' = (w1, inr (Return res)) ->
              quiet cfg f fpi s ->
              exists pre k post data0,
                s :: rest = pre ++ k :: post /\
                Forall (quiet cfg f fpi) pre /\
                sf_seek f k = inr tt /\ sf_read f k fpi = inr data0 /\
                (size data0 =? 0) = false /\ flt (Finite thr) (np_max_abs data0)).
    { intros mx' w' Hrest Hs.
      destruct (IH mx' w' Hrest) as (pre & k & post & d & -> & Hq & Hrestk).
      exists (s :: pre), k, post, d. split; [reflexivity|].
      split; [now constructor | exact Hrestk]. }
    destruct (size data =? 0) eqn:Hsize.
    + apply (Hnext _ _ Hrun). split; [assumption|].
      unfold chunk_peak. rewrite Hread, Hsize. discriminate.
    + destruct (fgtb (np_max_abs data) (Finite thr)) eqn:Hgt.
      * exists [], s, rest, data.
        split; [reflexivity|]. split; [constructor|].
        split; [exact Hseek|]. split; [exact Hread|].
        split; [exact Hsize | exact Hgt].
      * apply (Hnext _ _ Hrun). split; [assumption|].
        unfold chunk_peak. rewrite Hread, Hsize.
        intros peak [= <-]. exact Hgt.
Qed.

(** Every result returned from inside the loop is a KEEP row of this file. *)
Lemma loop_return_fields (todo : list Z) (mx : float) (w0 w1 : World)
    (res : ScanResult) :
  loop todo mx w0 = (w1, inr (Return res)) ->
  path res = str_wav_path /\ decision res = "KEEP"%string.
Proof.
  revert mx w0. induction todo as [|s rest IH]; intros mx w0 Hrun.
  - discriminate.
  - destruct (sf_seek f s) as [e|[]] eqn:Hseek.
    { rewrite (loop_seek_raises s rest mx w0 e Hseek) in Hrun. discriminate. }
    destruct (sf_read f s fpi) as [e|data] eqn:Hread.
    { rewrite (loop_read_raises s rest mx w0 e Hseek Hread) in Hrun.
      discriminate. }
    rewrite (loop_read s rest mx w0 data Hseek Hread) in Hrun. cbv zeta in Hrun.
    destruct (size data =? 0); [eapply IH; eassumption|].
    destruct (fgtb (np_max_abs data) (Finite thr)); [|eapply IH; eassumption].
    injection Hrun as _ <-. split; reflexivity.
Qed.

End LoopFacts.

Section BodyFacts.

Variable format_6g : float -> string.
Variable cfg : Config.

Let scan : WavFile -> ScanResult := scan_wav_for_silence format_6g cfg.
Let body : WavFile -> Py ScanResult := scan_body format_6g cfg.

Ltac run_body :=
  unfold body, scan_body, stat, with_SoundFile, finally, bind, call, lift,
    set_pos; simpl.

Lemma body_stat_raises (w : WavFile) (e : exn) :
  stat_result w = inl e -> body w world0 = (mkWorld 0 [Stat], inl e).
Proof. intros H. run_body. now rewrite H. Qed.

Lemma body_gated (w : WavFile) (size_bytes : Z) :
  stat_result w = inr size_bytes ->
  (size_bytes <? MIN_SIZE_BYTES cfg) = true ->
  exists res, body w world0 = (mkWorld 0 [Stat], inr res) /\
              path res = str_path w /\ decision res = "KEEP"%string.
Proof.
  intros Hstat Hgate. eexists. run_body. rewrite Hstat, Hgate.
  split; [reflexivity|]. split; reflexivity.
Qed.

Lemma body_open_raises (w : WavFile) (size_bytes : Z) (e : exn) :
  stat_result w = inr size_bytes ->
  (size_bytes <? MIN_SIZE_BYTES cfg) = false ->
  open_result w = inl e ->
  body w world0 = (mkWorld 0 [Stat; Open], inl e).
Proof. intros Hstat Hgate Hopen. run_body. now rewrite Hstat, Hgate, Hopen. Qed.

Lemma body_empty_plan (w : WavFile) (size_bytes : Z) (f : SoundFile) (fpi : Z) :
  reaches_plan cfg w size_bytes f [] fpi ->
  body w world0
  = (mkWorld 0 [Stat; Open; Close],
     inr (mkScanResult (str_path w) "ERROR"
            "Could not compute sample positions (invalid WAV metadata or empty audio)."
            size_bytes (duration_of f) (sf_samplerate f) (sf_channels f)
            (INTERVAL_SECONDS cfg) 0 (SILENCE_THRESHOLD cfg) (Finite 0))).
Proof.
  intros (Hstat & Hgate & Hopen & Hplan). run_body.
  rewrite Hstat, Hgate, Hopen. simpl. rewrite Hplan. reflexivity.
Qed.

Lemma body_loop (w : WavFile) (size_bytes : Z) (f : SoundFile)
    (starts : list Z) (fpi : Z) :
  reaches_plan cfg w size_bytes f starts fpi -> starts <> [] ->
  body w world0
  = let '(w1, r) :=
      file_loop format_6g cfg w size_bytes f starts fpi starts (Finite 0)
                world_opened in
    (mkWorld (pos w1) (calls w1 ++ [Close]),
     match r with
     | inl e => inl e
     | inr (Return res) => inr res
     | inr (Fallthrough m) =>
         inr (silent_result cfg (str_path w) size_bytes (sf_samplerate f)
                            (sf_channels f) (duration_of f) starts m)
     end).
Proof.
  intros (Hstat & Hgate & Hopen & Hplan) Hne.
  unfold body, scan_body, stat, with_SoundFile.
  unfold bind at 1 2. unfold call at 1, lift at 1. cbn [calls pos world0 app].
  rewrite Hstat, Hgate.
  unfold bind at 1 2 3. unfold call at 1, lift at 1, set_pos at 1.
  cbn [calls pos app]. rewrite Hopen, Hplan.
  replace (Z.of_nat (List.length starts) =? 0) with false
    by (symmetry; apply Z.eqb_neq; destruct starts; simpl; [congruence|lia]).
  unfold finally, bind, file_loop, world_opened, duration_of, call.
  destruct (scan_chunks _ _ _ _ _ _ _ _ _ _ _ _ _) as [w1 [e|[res|m]]];
    reflexivity.
Qed.

(** The [except] branch: whatever the body raises becomes the ERROR row. *)
Lemma scan_of_raise (w : WavFile) (w1 : World) (e : exn) :
  body w world0 = (w1, inl e) -> scan w = error_result cfg (str_path w) e.
Proof.
  intros H. unfold scan, scan_wav_for_silence. fold body. now rewrite H.
Qed.

Lemma scan_of_result (w : WavFile) (w1 : World) (res : ScanResult) :
  body w world0 = (w1, inr res) -> scan w = res.
Proof.
  intros H. unfold scan, scan_wav_for_silence. fold body. now rewrite H.
Qed.

End BodyFacts.

Section ClassifierClaims.

Variable format_6g : float -> string.
Variable cfg : Config.

Let scan : WavFile -> ScanResult := scan_wav_for_silence format_6g cfg.
Let thr : Q := SILENCE_THRESHOLD cfg.

Lemma chunk_peak_In (f : SoundFile) (fpi s : Z) (l : list Z) (p : float) :
  In s l -> chunk_peak f fpi s = Some p -> In p (probed_peaks f fpi l).
Proof.
  intros Hs Hp. unfold probed_peaks. apply in_flat_map.
  exists s. split; [assumption|]. rewrite Hp. now left.
Qed.


Lemma quiet_of_peaks (f : SoundFile) (fpi : Z) (l : list Z) :
  Forall (readable f fpi) l ->
  (forall p, In p (probed_peaks f fpi l) -> not_above cfg p) ->
  Forall (quiet cfg f fpi) l.
Proof.
  intros Hr Hle. rewrite Forall_forall in *. intros s Hs.
  split; [now apply Hr|]. intros p Hp. apply Hle.
  eapply chunk_peak_In; eassumption.
Qed.

(** The classification of a file all of whose planned chunks are quiet. *)
Lemma scan_all_quiet (w : WavFile) (size_bytes : Z) (f : SoundFile)
    (starts : list Z) (fpi : Z) :
  reaches_plan cfg w size_bytes f starts fpi -> starts <> [] ->
  Forall (quiet cfg f fpi) starts ->
  scan w = silent_result cfg (str_path w) size_bytes (sf_samplerate f)
             (sf_channels f) (duration_of f) starts
             (fold_left py_max (probed_peaks f fpi starts) (Finite 0)) /\
  scan_calls format_6g cfg w = [Stat; Open] ++ visits fpi starts ++ [Close].
Proof.
  intros Hplan Hne Hq.
  pose proof (body_loop format_6g cfg w size_bytes f starts fpi Hplan Hne) as Hb.
  unfold file_loop in Hb.
  destruct (loop_quiet_prefix format_6g cfg (str_path w) f size_bytes
              (sf_samplerate f) (sf_channels f) (duration_of f) starts fpi
              starts [] (Finite 0) world_opened Hq) as [p Hp].
  rewrite app_nil_r in Hp. rewrite Hp in Hb. simpl in Hb.
  split.
  - eapply scan_of_result. exact Hb.
  - unfold scan_calls. rewrite Hb. reflexivity.
Qed.

(** C7. Degenerate planner inputs give an empty plan; a file whose plan is
    empty is classified ERROR with the detail that sample positions could
    not be computed; so is an opened file with no frames; and a file with no
    frames is never classified SILENT, however its classification goes. *)
Theorem empty_plan_is_error :
  (forall total_frames sr interval_seconds num_samples,
     sr <= 0 \/ total_frames <= 0 \/ sr * interval_seconds <= 0 ->
     fst (compute_sample_positions total_frames sr interval_seconds
                                   num_samples) = []) /\
  (forall w size_bytes f fpi,
     reaches_plan cfg w size_bytes f [] fpi ->
     decision (scan w) = "ERROR"%string /\
     detail (scan w) =
       "Could not compute sample positions (invalid WAV metadata or empty audio)."%string) /\
  (forall w size_bytes f,
     stat_result w = inr size_bytes ->
     (size_bytes <? MIN_SIZE_BYTES cfg) = false ->
     open_result w = inr f -> sf_len f <= 0 ->
     decision (scan w) = "ERROR"%string /\
     detail (scan w) =
       "Could not compute sample positions (invalid WAV metadata or empty audio)."%string) /\
  (forall w,
     (forall f, open_result w = inr f -> sf_len f <= 0) ->
     decision (scan w) <> "SILENT"%string).
Proof.
  assert (Hempty : forall w size_bytes f fpi,
            reaches_plan cfg w size_bytes f [] fpi ->
            decision (scan w) = "ERROR"%string /\
            detail (scan w) =
              "Could not compute sample positions (invalid WAV metadata or empty audio)."%string).
  { intros w size_bytes f fpi Hplan.
    pose proof (body_empty_plan format_6g cfg w size_bytes f fpi Hplan) as Hb.
    unfold scan. erewrite scan_of_result by exact Hb. split; reflexivity. }
  assert (Hzero : forall w size_bytes f,
            stat_result w = inr size_bytes ->
            (size_bytes <? MIN_SIZE_BYTES cfg) = false ->
            open_result w = inr f -> sf_len f <= 0 ->
            reaches_plan cfg w size_bytes f []
              (sf_samplerate f * INTERVAL_SECONDS cfg)).
  { intros w size_bytes f Hstat Hgate Hopen Hlen.
    repeat split; try assumption. apply plan_degenerate. auto. }
  split; [|split; [exact Hempty|split]].
  - intros total_frames sr interval_seconds num_samples H.
    now rewrite plan_degenerate.
  - intros w size_bytes f Hstat Hgate Hopen Hlen.
    eapply Hempty. eapply Hzero; eassumption.
  - intros w Hlen.
    destruct (stat_result w) as [e|size_bytes] eqn:Hstat.
    { unfold scan.
      erewrite scan_of_raise by (apply body_stat_raises; exact Hstat).
      discriminate. }
    destruct (size_bytes <? MIN_SIZE_BYTES cfg) eqn:Hgate.
    { destruct (body_gated format_6g cfg w size_bytes Hstat Hgate)
        as (res & Hb & _ & Hd).
      unfold scan. erewrite scan_of_result by exact Hb.
      rewrite Hd. discriminate. }
    destruct (open_result w) as [e|f] eqn:Hopen.
    { unfold scan.
      erewrite scan_of_raise
        by (eapply body_open_raises; eassumption).
      discriminate. }
    destruct (Hempty w size_bytes f _
                (Hzero w size_bytes f Hstat Hgate Hopen (Hlen f eq_refl)))
      as [Hd _].
    rewrite Hd. discriminate.
Qed.


(** C2. When the chunks planned before [k] are read without stopping the
    scan and the chunk at [k] has a peak strictly above the threshold, the
    result is KEEP, [max_abs_seen] equals that peak, [num_samples_used] is
    the number of planned offsets, the detail cites that peak, and the
    calls made are the visits of the chunks up to and including [k]: the
    chunks planned after [k] are neither sought nor read. *)
Theorem first_loud_chunk_keeps (w : WavFile) (size_bytes : Z)
    (f : SoundFile) (starts : list Z) (fpi : Z)
    (pre post : list Z) (k : Z) (data : Data) :
  reaches_plan cfg w size_bytes f starts fpi ->
  starts = pre ++ k :: post ->
  Forall (quiet cfg f fpi) pre ->
  sf_seek f k = inr tt -> sf_read f k fpi = inr data ->
  (size data =? 0) = false -> flt (Finite thr) (np_max_abs data) ->
  let res := scan w in
  let peak := np_max_abs data in
  decision res = "KEEP"%string /\
  feq (max_abs_seen res) peak /\
  num_samples_used res = Z.of_nat (List.length starts) /\
  detail res
  = ("Non-silent chunk found (peak=" ++ format_6g peak ++ " > threshold).")%string /\
  scan_calls format_6g cfg w
  = [Stat; Open] ++ visits fpi (pre ++ [k]) ++ [Close].
Proof.
  intros Hplan Hstarts Hq Hseek Hread Hsize Hpeak res peak.
  assert (Hne : starts <> []) by (rewrite Hstarts; now destruct pre).
  pose proof (body_loop format_6g cfg w size_bytes f starts fpi Hplan Hne) as Hb.
  unfold file_loop in Hb.
  destruct (loop_stops_at format_6g cfg (str_path w) f size_bytes
              (sf_samplerate f) (sf_channels f) (duration_of f) starts fpi
              pre post k data (Finite 0) world_opened Hq Hseek Hread Hsize Hpeak)
    as [p Hp].
  rewrite <- Hstarts in Hp. rewrite Hp in Hb. simpl in Hb.
  assert (Hres : scan w = keep_result format_6g cfg (str_path w) size_bytes
                   (sf_samplerate f) (sf_channels f) (duration_of f) starts
                   peak (py_max (fold_left py_max (probed_peaks f fpi pre)
                                                (Finite 0))
                                peak))
    by (eapply scan_of_result; exact Hb).
  unfold res. rewrite Hres. simpl.
  split; [reflexivity|]. split; [|split; [reflexivity|split; [reflexivity|]]].
  - set (m := fold_left py_max (probed_peaks f fpi pre) (Finite 0)).
    assert (Hnum : is_nan peak = false)
      by (unfold flt in Hpeak; now apply fgtb_not_nan in Hpeak).
    assert (Hm : fle m peak).
    { apply running_max_le; [now apply np_max_abs_nonneg|].
      intros q Hin Hn. eapply fle_trans; [|apply flt_fle; exact Hpeak].
      apply fgtb_false_fle; [exact Hn | reflexivity|].
      eapply quiet_peaks_not_above; eassumption. }
    destruct (py_max_cases m peak) as [[-> _]|[-> Hle]];
      [now apply feq_refl|].
    split; [exact Hm|].
    apply fgtb_false_fle; [exact Hnum | | exact Hle].
    now apply running_max_not_nan.
  - unfold scan_calls. rewrite Hb. reflexivity.
Qed.

(** C3. The comparison with the threshold is strict. For a file whose
    planned chunks are all readable: if every measured peak is at most the
    threshold the result is SILENT, in particular when every measured peak
    equals the threshold; more generally the result is SILENT as soon as
    the test [peak > SILENCE_THRESHOLD] is false at every measured peak;
    and whenever the classification of a file that reached the planner is
    KEEP, some chunk was measured with a peak strictly above the
    threshold. *)
Theorem threshold_comparison_is_strict (w : WavFile) (size_bytes : Z)
    (f : SoundFile) (starts : list Z) (fpi : Z) :
  reaches_plan cfg w size_bytes f starts fpi -> starts <> [] ->
  Forall (readable f fpi) starts ->
  let res := scan w in
  let peaks := probed_peaks f fpi starts in
  ((forall p, In p peaks -> fle p (Finite thr)) ->
   decision res = "SILENT"%string) /\
  ((forall p, In p peaks -> feq p (Finite thr)) ->
   decision res = "SILENT"%string) /\
  ((forall p, In p peaks -> not_above cfg p) ->
   decision res = "SILENT"%string) /\
  (decision res = "KEEP"%string ->
   exists p, In p peaks /\ flt (Finite thr) p).
Proof.
  intros Hplan Hne Hr res peaks.
  assert (Hsilent : (forall p, In p peaks -> not_above cfg p) ->
                    decision res = "SILENT"%string).
  { intros Hle.
    destruct (scan_all_quiet w size_bytes f starts fpi Hplan Hne
                (quiet_of_peaks f fpi starts Hr Hle)) as [Hres _].
    unfold res. rewrite Hres. reflexivity. }
  split; [|split; [|split; [exact Hsilent|]]].
  - intros Hle. apply Hsilent. intros p Hp.
    apply fle_fgtb_false. now apply Hle.
  - intros Heq. apply Hsilent. intros p Hp.
    apply fle_fgtb_false. now apply Heq.
  - intros Hkeep.
    pose proof (body_loop format_6g cfg w size_bytes f starts fpi Hplan Hne)
      as Hb.
    unfold file_loop in Hb.
    destruct (scan_chunks _ _ _ _ _ _ _ _ _ _ _ _ _) as [w1 [e|[r|m]]] eqn:Hrun.
    + apply scan_of_raise in Hb. unfold res, scan in Hkeep.
      rewrite Hb in Hkeep. discriminate.
    + destruct (loop_return_inv _ _ _ _ _ _ _ _ _ _ _ _ _ _ _ Hrun)
        as (pre & k & post & data & Hsplit & _ & _ & Hread & Hsize & Hgt).
      exists (np_max_abs data). split; [|exact Hgt].
      apply (chunk_peak_In f fpi k).
      * rewrite Hsplit. apply in_or_app. right. now left.
      * unfold chunk_peak. now rewrite Hread, Hsize.
    + apply scan_of_result in Hb. unfold res, scan in Hkeep.
      rewrite Hb in Hkeep. discriminate.
Qed.

(** C10. When the plan is not empty and every planned read returns an
    empty array, the result is SILENT with [max_abs_seen = 0.0] and
    [num_samples_used] the number of planned offsets, although no peak was
    ever measured. *)
Theorem all_reads_empty_is_silent (w : WavFile) (size_bytes : Z)
    (f : SoundFile) (starts : list Z) (fpi : Z) :
  reaches_plan cfg w size_bytes f starts fpi -> starts <> [] ->
  (forall s, In s starts ->
     sf_seek f s = inr tt /\
     exists data, sf_read f s fpi = inr data /\ size data = 0) ->
  let res := scan w in
  decision res = "SILENT"%string /\
  max_abs_seen res = Finite 0 /\
  num_samples_used res = Z.of_nat (List.length starts) /\
  probed_peaks f fpi starts = [] /\
  scan_calls format_6g cfg w = [Stat; Open] ++ visits fpi starts ++ [Close].
Proof.
  intros Hplan Hne Hempty res.
  assert (Hnone : forall s, In s starts -> chunk_peak f fpi s = None).
  { intros s Hs. destruct (Hempty s Hs) as [_ [data [Hread Hsize]]].
    unfold chunk_peak. rewrite Hread, Hsize. reflexivity. }
  assert (Hpeaks : probed_peaks f fpi starts = []).
  { unfold probed_peaks. clear - Hnone.
    induction starts as [|s t IH]; [reflexivity|]. simpl.
    rewrite (Hnone s) by now left. simpl. apply IH.
    intros s' Hs'. apply Hnone. now right. }
  assert (Hq : Forall (quiet cfg f fpi) starts).
  { rewrite Forall_forall. intros s Hs.
    destruct (Hempty s Hs) as [Hseek [data [Hread _]]].
    split; [split; [assumption | eauto]|].
    rewrite (Hnone s Hs). discriminate. }
  destruct (scan_all_quiet w size_bytes f starts fpi Hplan Hne Hq)
    as [Hres Hcalls].
  unfold res. rewrite Hres, Hpeaks. simpl.
  repeat split; assumption || reflexivity.
Qed.

(** C4. [scan_wav_for_silence] is a function into [ScanResult]: whatever
    exception its body raises is turned into the ERROR row, whose detail is
    the exception's type name and message and whose size, duration, sample
    rate, channels, [num_samples_used] and [max_abs_seen] are zero. This is
    so for a failing [stat], a failing open, and a failing [seek] or [read]
    at any planned chunk reached by the scan. *)
Theorem failures_become_error_rows (w : WavFile) :
  let res := scan w in
  let failed e := error_result cfg (str_path w) e in
  (forall e, snd (scan_body format_6g cfg w world0) = inl e ->
     res = failed e) /\
  (forall e, stat_result w = inl e -> res = failed e) /\
  (forall size_bytes e,
     stat_result w = inr size_bytes ->
     (size_bytes <? MIN_SIZE_BYTES cfg) = false ->
     open_result w = inl e -> res = failed e) /\
  (forall size_bytes f starts fpi pre k post e,
     reaches_plan cfg w size_bytes f starts fpi ->
     starts = pre ++ k :: post ->
     Forall (quiet cfg f fpi) pre ->
     sf_seek f k = inl e \/ (sf_seek f k = inr tt /\ sf_read f k fpi = inl e) ->
     res = failed e) /\
  (forall e,
     decision (failed e) = "ERROR"%string /\
     detail (failed e) = (exn_type e ++ ": " ++ exn_msg e)%string /\
     size_bytes (failed e) = 0 /\ duration_sec (failed e) = 0%Q /\
     samplerate (failed e) = 0 /\ channels (failed e) = 0 /\
     num_samples_used (failed e) = 0 /\ max_abs_seen (failed e) = Finite 0).
Proof.
  intros res failed.
  assert (Hraise : forall e, snd (scan_body format_6g cfg w world0) = inl e ->
                             res = failed e).
  { intros e He. unfold res, scan, scan_wav_for_silence. now rewrite He. }
  split; [exact Hraise|]. split; [|split; [|split]].
  - intros e Hstat. apply Hraise.
    now rewrite (body_stat_raises format_6g cfg w e Hstat).
  - intros size_bytes e Hstat Hgate Hopen. apply Hraise.
    now rewrite (body_open_raises format_6g cfg w size_bytes e Hstat Hgate Hopen).
  - intros size_bytes f starts fpi pre k post e Hplan Hstarts Hq Hfail.
    assert (Hne : starts <> []) by (rewrite Hstarts; now destruct pre).
    apply Hraise.
    rewrite (body_loop format_6g cfg w size_bytes f starts fpi Hplan Hne).
    unfold file_loop.
    destruct (loop_quiet_prefix format_6g cfg (str_path w) f size_bytes
                (sf_samplerate f) (sf_channels f) (duration_of f) starts fpi
                pre (k :: post) (Finite 0) world_opened Hq) as [p Hp].
    rewrite Hstarts at 2. rewrite Hp.
    destruct Hfail as [Hseek|[Hseek Hread]].
    + now rewrite (loop_seek_raises _ _ _ _ _ _ _ _ _ _ k post _ _ e Hseek).
    + now rewrite (loop_read_raises _ _ _ _ _ _ _ _ _ _ k post _ _ e Hseek Hread).
  - intros e. repeat split.
Qed.

End ClassifierClaims.

(** * Properties of the pipeline *)

Section PipelineClaims.

Variable format_6g : float -> string.
Variable cfg : Config.

Let scan : WavFile -> ScanResult := scan_wav_for_silence format_6g cfg.
Let step : Summary -> WavFile -> Summary := main_step format_6g cfg.
Let run : Summary -> list WavFile -> Summary := main_loop format_6g cfg.

(** Every row the classifier produces carries the path it was given. *)
Lemma scan_path (w : WavFile) : path (scan w) = str_path w.
Proof.
  destruct (stat_result w) as [e|size_bytes] eqn:Hstat.
  { unfold scan.
    now erewrite scan_of_raise by (apply body_stat_raises; exact Hstat). }
  destruct (size_bytes <? MIN_SIZE_BYTES cfg) eqn:Hgate.
  { destruct (body_gated format_6g cfg w size_bytes Hstat Hgate)
      as (res & Hb & Hp & _).
    unfold scan. now erewrite scan_of_result by exact Hb. }
  destruct (open_result w) as [e|f] eqn:Hopen.
  { unfold scan.
    now erewrite scan_of_raise by (eapply body_open_raises; eassumption). }
  destruct (compute_sample_positions (sf_len f) (sf_samplerate f)
              (INTERVAL_SECONDS cfg) (NUM_SAMPLES_PER_FILE cfg))
    as [starts fpi] eqn:Hplan.
  assert (Hreach : reaches_plan cfg w size_bytes f starts fpi)
    by (repeat split; assumption).
  destruct starts as [|s0 rest].
  { unfold scan.
    now erewrite scan_of_result by (eapply body_empty_plan; exact Hreach). }
  pose proof (body_loop format_6g cfg w size_bytes f (s0 :: rest) fpi Hreach)
    as Hb.
  specialize (Hb ltac:(discriminate)). unfold file_loop in Hb.
  destruct (scan_chunks _ _ _ _ _ _ _ _ _ _ _ _ _) as [w1 [e|[r|m]]] eqn:Hrun.
  - unfold scan. now erewrite scan_of_raise by exact Hb.
  - unfold scan. erewrite scan_of_result by exact Hb.
    now destruct (loop_return_fields _ _ _ _ _ _ _ _ _ _ _ _ _ _ _ Hrun).
  - unfold scan. now erewrite scan_of_result by exact Hb.
Qed.

(** What one iteration adds to the record of [os.remove] calls. *)
Lemma step_remove_calls (st : Summary) (w : WavFile) :
  remove_calls (step st w)
  = remove_calls st
    ++ (if is_silent (scan w) && (MODE cfg =? "DELETE")%string
        then [str_path w] else []).
Proof.
  unfold step, main_step, is_silent. fold scan.
  destruct (decision (scan w) =? "SILENT")%string.
  - destruct (MODE cfg =? "DELETE")%string; simpl.
    + rewrite scan_path. now destruct (remove_result w).
    + now rewrite app_nil_r.
  - simpl. rewrite app_nil_r.
    now destruct (decision (scan w) =? "ERROR")%string.
Qed.

Lemma run_remove_calls (st : Summary) (wav_files : list WavFile) :
  remove_calls (run st wav_files)
  = remove_calls st
    ++ (if (MODE cfg =? "DELETE")%string
        then map str_path (filter (fun w => is_silent (scan w)) wav_files)
        else []).
Proof.
  unfold run, main_loop. revert st.
  induction wav_files as [|w t IH]; intros st; simpl.
  - destruct (MODE cfg =? "DELETE")%string; now rewrite app_nil_r.
  - rewrite IH. fold step. rewrite step_remove_calls, <- app_assoc.
    f_equal.
    destruct (MODE cfg =? "DELETE")%string, (is_silent (scan w)); reflexivity.
Qed.

(** Rows are only ever appended to the report. *)
Lemma step_report_rows (st : Summary) (w : WavFile) :
  exists added, report_rows (step st w) = report_rows st ++ added.
Proof.
  unfold step, main_step. fold scan.
  destruct (decision (scan w) =? "SILENT")%string.
  - destruct (MODE cfg =? "DELETE")%string.
    + destruct (remove_result w); simpl; [|eauto].
      rewrite <- app_assoc. eauto.
    + simpl. eauto.
  - destruct (decision (scan w) =? "ERROR")%string; simpl; [eauto|].
    exists []. now rewrite app_nil_r.
Qed.

Lemma run_report_rows (st : Summary) (wav_files : list WavFile) :
  exists added, report_rows (run st wav_files) = report_rows st ++ added.
Proof.
  unfold run, main_loop. revert st.
  induction wav_files as [|w t IH]; intros st; simpl.
  - exists []. now rewrite app_nil_r.
  - destruct (IH (main_step format_6g cfg st w)) as [a2 H2].
    destruct (step_report_rows st w) as [a1 H1]. unfold step in H1.
    rewrite H2, H1, <- app_assoc. eauto.
Qed.

(** C8. The paths handed to [os.remove] during a run are, in order, the
    paths of the files classified SILENT when the mode is DELETE, and none
    otherwise: no file classified KEEP or ERROR is ever handed to
    [os.remove]. *)
Theorem only_silent_files_are_removed (st : Summary)
    (wav_files : list WavFile) :
  remove_calls (run st wav_files)
  = remove_calls st
    ++ (if (MODE cfg =? "DELETE")%string
        then map str_path (filter (fun w => is_silent (scan w)) wav_files)
        else []) /\
  (forall root_is_dir sm,
     main format_6g cfg root_is_dir wav_files = inr sm ->
     remove_calls sm
     = map str_path
         (filter (fun w => (MODE cfg =? "DELETE")%string
                           && (decision (scan w) =? "SILENT")%string)
                 wav_files)) /\
  (forall w, In w wav_files ->
     decision (scan w) <> "SILENT"%string ->
     remove_calls (step st w) = remove_calls st).
Proof.
  split; [apply run_remove_calls|]. split.
  - intros root_is_dir sm Hmain. unfold main in Hmain.
    destruct (negb _); [discriminate|].
    destruct (negb root_is_dir); [discriminate|].
    injection Hmain as <-. fold run. rewrite run_remove_calls. simpl.
    destruct (MODE cfg =? "DELETE")%string; simpl; [reflexivity|].
    clear. induction wav_files as [|w t IH]; [reflexivity | exact IH].
  - intros w _ Hns. rewrite step_remove_calls. unfold is_silent.
    destruct (decision (scan w) =? "SILENT")%string eqn:E.
    + apply String.eqb_eq in E. contradiction.
    + simpl. apply app_nil_r.
Qed.

(** C9. In DELETE mode, when [os.remove] raises for a file classified
    SILENT, that iteration adds 1 to the error count (and to the scanned
    and silent counts, and the size to the candidate bytes), leaves the
    deleted count and the deleted bytes as they were, and appends two rows:
    the SILENT row, then a row with the same path, size, duration, sample
    rate, channels, scan parameters and [max_abs_seen], with decision ERROR
    and a "Delete failed" detail. The run goes on with the remaining
    files, and both rows are in the final report. *)
Theorem failed_delete_adds_error_row (st0 : Summary)
    (pre post : list WavFile) (w : WavFile) (e : exn) :
  MODE cfg = "DELETE"%string ->
  decision (scan w) = "SILENT"%string ->
  remove_result w = inl e ->
  let st := run st0 pre in
  let st' := step st w in
  let res := scan w in
  let row := delete_failed_row res e in
  error_count st' = error_count st + 1 /\
  deleted_count st' = deleted_count st /\
  bytes_deleted_savings st' = bytes_deleted_savings st /\
  scanned st' = scanned st + 1 /\
  silent_candidates st' = silent_candidates st + 1 /\
  bytes_candidate_savings st' = bytes_candidate_savings st + size_bytes res /\
  report_rows st' = report_rows st ++ [res; row] /\
  row = mkScanResult (str_path w) "ERROR"
          ("Delete failed: " ++ exn_type e ++ ": " ++ exn_msg e)
          (size_bytes res) (duration_sec res) (samplerate res) (channels res)
          (interval_seconds res) (num_samples_used res) (threshold res)
          (max_abs_seen res) /\
  path res = str_path w /\
  run st0 (pre ++ w :: post) = run st' post /\
  exists later,
    report_rows (run st0 (pre ++ w :: post))
    = report_rows st ++ res :: row :: later.
Proof.
  intros Hmode Hsilent Hremove st st' res row.
  assert (Hstep : st' = mkSummary (scanned st + 1) (silent_candidates st + 1)
                          (deleted_count st) (error_count st + 1)
                          (bytes_candidate_savings st + size_bytes res)
                          (bytes_deleted_savings st)
                          ((report_rows st ++ [res]) ++ [row])
                          (remove_calls st ++ [path res])).
  { unfold st', step, main_step. fold scan. fold res.
    unfold res at 1. rewrite Hsilent, Hmode, Hremove. reflexivity. }
  assert (Hrun : run st0 (pre ++ w :: post) = run st' post).
  { unfold run, main_loop. now rewrite fold_left_app. }
  assert (Hrows : report_rows st' = report_rows st ++ [res; row])
    by (rewrite Hstep; simpl; now rewrite <- app_assoc).
  do 6 (split; [now rewrite Hstep|]).
  split; [exact Hrows|].
  split; [unfold row, delete_failed_row, res; now rewrite scan_path|].
  split; [apply scan_path|].
  split; [exact Hrun|].
  rewrite Hrun. destruct (run_report_rows st' post) as [later Hlater].
  exists later. rewrite Hlater, Hrows, <- app_assoc. reflexivity.
Qed.

End PipelineClaims.

(** * The statements at the sample files *)

Section Instances.

Import Samples.

Let scan : WavFile -> ScanResult := scan_wav_for_silence show_ratio cfg_delete.

Ltac plan_reached := repeat split; vm_compute; reflexivity.

Ltac quiet_chunk :=
  split;
  [ split; [reflexivity | eexists; reflexivity]
  | let peak := fresh "peak" in
    let H := fresh "H" in
    intros peak H; vm_compute in H;
    first [discriminate H
          | injection H as <-; vm_compute; reflexivity] ].

Ltac quiet_chunks :=
  repeat (apply Forall_cons; [quiet_chunk|]); apply Forall_nil.

Ltac readable_chunks :=
  repeat (apply Forall_cons; [split; [reflexivity | eexists; reflexivity]|]);
  apply Forall_nil.



Lemma first_loud_chunk_keeps_witness :
  decision (scan wav_loud) = "KEEP"%string /\
  feq (max_abs_seen (scan wav_loud)) (Finite (1 # 2)) /\
  num_samples_used (scan wav_loud) = 4 /\
  detail (scan wav_loud) = "Non-silent chunk found (peak=1/2 > threshold)."%string /\
  scan_calls show_ratio cfg_delete wav_loud
  = [Stat; Open; Seek 0; Read 0 7; Seek 1; Read 1 7; Seek 2; Read 2 7; Close].
Proof.
  destruct (first_loud_chunk_keeps show_ratio cfg_delete wav_loud 100 sf_loud
              [0; 1; 2; 3] 7 [0; 1] [3] 2 [[Finite (-1 # 2)]])
    as (Hd & Hm & Hn & Hdetail & Hcalls).
  - plan_reached.
  - reflexivity.
  - quiet_chunks.
  - reflexivity.
  - reflexivity.
  - reflexivity.
  - vm_compute. reflexivity.
  - split; [exact Hd|]. split; [exact Hm|]. split; [exact Hn|].
    split; [exact Hdetail | exact Hcalls].
Defined.

Lemma threshold_comparison_is_strict_witness :
  decision (scan wav_quiet) = "SILENT"%string.
Proof.
  destruct (threshold_comparison_is_strict show_ratio cfg_delete wav_quiet 100
              sf_quiet [0; 1; 2; 3] 7) as (_ & Heq & _ & _).
  - plan_reached.
  - discriminate.
  - readable_chunks.
  - apply Heq. intros p Hp. vm_compute in Hp.
    destruct Hp as [<-|[<-|[<-|[]]]]; split; reflexivity.
Defined.

Lemma all_reads_empty_is_silent_witness :
  decision (scan wav_mute) = "SILENT"%string /\
  max_abs_seen (scan wav_mute) = Finite 0 /\
  num_samples_used (scan wav_mute) = 4.
Proof.
  destruct (all_reads_empty_is_silent show_ratio cfg_delete wav_mute 100
              sf_mute [0; 1; 2; 3] 7) as (Hd & Hm & Hn & _).
  - plan_reached.
  - discriminate.
  - intros s _. split; [reflexivity|]. exists []. split; reflexivity.
  - repeat split; assumption.
Defined.

Lemma failures_become_error_rows_witness :
  scan wav_broken
  = mkScanResult "broken.wav" "ERROR" "LibsndfileError: read failed"
                 0 0%Q 0 0 7 0 (1 # 10000)%Q (Finite 0).
Proof.
  destruct (failures_become_error_rows show_ratio cfg_delete wav_broken)
    as (_ & _ & _ & Hchunk & _).
  apply (Hchunk 100 sf_broken [0; 1; 2; 3] 7 [0] 1 [2; 3]
                (mkExn "LibsndfileError" "read failed")).
  - plan_reached.
  - reflexivity.
  - quiet_chunks.
  - right. split; reflexivity.
Defined.

Lemma empty_plan_is_error_witness :
  decision (scan wav_no_frames) = "ERROR"%string /\
  detail (scan wav_no_frames)
  = "Could not compute sample positions (invalid WAV metadata or empty audio)."%string.
Proof.
  destruct (empty_plan_is_error show_ratio cfg_delete) as (_ & _ & Hzero & _).
  apply (Hzero wav_no_frames 44 sf_no_frames).
  - reflexivity.
  - reflexivity.
  - reflexivity.
  - simpl. lia.
Defined.

Lemma only_silent_files_are_removed_witness :
  remove_calls (main_loop show_ratio cfg_delete summary0
                  [wav_loud; wav_quiet; wav_broken; wav_mute; wav_no_frames])
  = ["quiet.wav"; "mute.wav"]%string.
Proof.
  destruct (only_silent_files_are_removed show_ratio cfg_delete summary0
              [wav_loud; wav_quiet; wav_broken; wav_mute; wav_no_frames])
    as (_ & Hlog & _).
  rewrite (Hlog true _ eq_refl). vm_compute. reflexivity.
Defined.

Lemma failed_delete_adds_error_row_witness :
  error_count (main_loop show_ratio cfg_delete summary0
                         [wav_loud; wav_quiet; wav_mute]) = 1 /\
  exists later,
    report_rows (main_loop show_ratio cfg_delete summary0
                           ([wav_loud] ++ wav_quiet :: [wav_mute]))
    = report_rows (main_loop show_ratio cfg_delete summary0 [wav_loud])
      ++ scan wav_quiet :: delete_failed_row (scan wav_quiet) denied :: later.
Proof.
  destruct (failed_delete_adds_error_row show_ratio cfg_delete summary0
              [wav_loud] [wav_mute] wav_quiet denied)
    as (_ & _ & _ & _ & _ & _ & _ & _ & _ & _ & Hrows).
  - reflexivity.
  - vm_compute. reflexivity.
  - reflexivity.
  - split; [vm_compute; reflexivity | exact Hrows].
Defined.

(** A two-hour mono file at 48 kHz, with the shipped configuration. *)
Example plan_two_hours :
  compute_sample_positions 345600000 48000 7 16
  = ([0; 23017600; 46035200; 69052800; 92070400; 115088000; 138105600;
      161123200; 184140800; 207158400; 230176000; 253193600; 276211200;
      299228800; 322246400; 345264000], 336000).
Proof. vm_compute. reflexivity. Qed.

(** A short file: the sixteen requested offsets collapse to four. *)
Example plan_short_dedup :
  compute_sample_positions 10 1 7 16 = ([0; 1; 2; 3], 7).
Proof. vm_compute. reflexivity. Qed.

(** The binary64 arithmetic of [np.linspace] shows in the offsets: with
    [max_start = 122] and fifteen samples, [step] is the binary64 number
    next below [122 / 14], and offset 7 is 60 where the exact quotient
    [7 * 122 / 14] is 61. *)
Example linspace_rounds_in_binary64 :
  Np.linspace 0 122 15
  = [0; 8; 17; 26; 34; 43; 52; 60; 69; 78; 87; 95; 104; 113; 122] /\
  7 * 122 / 14 = 61 /\
  nth 13 (Np.linspace 0 345264000 40) 0 = 115087999 /\
  13 * 345264000 / 39 = 115088000.
Proof. repeat split; vm_compute; reflexivity. Qed.

End Instances.

(** * Further properties of the planner *)

Section PlanShape.

Lemma insert_unique_length (x : Z) (l : list Z) :
  (List.length (Np.insert_unique x l) <= S (List.length l))%nat.
Proof.
  induction l as [|y t IH]; simpl; [lia|].
  destruct (x <? y); [simpl; lia|].
  destruct (x =? y); simpl; lia.
Qed.

Lemma unique_length (a : list Z) :
  (List.length (Np.unique a) <= List.length a)%nat.
Proof.
  unfold Np.unique. induction a as [|x t IH]; simpl; [lia|].
  pose proof (insert_unique_length x (fold_right Np.insert_unique [] t)). lia.
Qed.

(** The three shapes a plan can have. *)
Lemma plan_cases (total_frames sr interval_seconds num_samples : Z) :
  let fpi := sr * interval_seconds in
  let plan :=
    compute_sample_positions total_frames sr interval_seconds num_samples in
  ((sr <= 0 \/ total_frames <= 0 \/ fpi <= 0) /\ plan = ([], fpi)) \/
  (0 < sr /\ 0 < total_frames /\ 0 < fpi /\ total_frames <= fpi /\
   plan = ([0], fpi)) \/
  (0 < sr /\ 0 < total_frames /\ 0 < fpi /\ fpi < total_frames /\
   plan = (Np.unique (linspace_starts total_frames fpi num_samples), fpi)).
Proof.
  intros fpi plan.
  destruct (Z_le_gt_dec sr 0) as [Hsr|Hsr];
    [left; split; [auto | apply plan_degenerate; auto]|].
  destruct (Z_le_gt_dec total_frames 0) as [Htot|Htot];
    [left; split; [auto | apply plan_degenerate; auto]|].
  destruct (Z_le_gt_dec fpi 0) as [Hfpi|Hfpi];
    [left; split; [auto | apply plan_degenerate; auto]|].
  destruct (Z_le_gt_dec total_frames fpi) as [Hshort|Hlong].
  - right; left. repeat split; try lia.
    unfold plan, compute_sample_positions. fold fpi.
    replace ((sr <=? 0) || (total_frames <=? 0) || (fpi <=? 0)) with false
      by (symmetry; rewrite !orb_false_iff, !Z.leb_gt; lia).
    now replace (total_frames <=? fpi) with true
      by (symmetry; apply Z.leb_le; lia).
  - right; right. repeat split; try lia. apply plan_long; lia.
Qed.

(** X1. The planner answers no offsets exactly on the degenerate inputs. *)
Theorem plan_empty_iff_degenerate
    (total_frames sr interval_seconds num_samples : Z) :
  fst (compute_sample_positions total_frames sr interval_seconds num_samples)
  = []
  <-> sr <= 0 \/ total_frames <= 0 \/ sr * interval_seconds <= 0.
Proof.
  split.
  - intros Hnil.
    destruct (plan_cases total_frames sr interval_seconds num_samples)
      as [[H _]|[(_ & _ & _ & _ & Hp)|(_ & _ & _ & _ & Hp)]];
      [exact H | |]; rewrite Hp in Hnil; simpl in Hnil.
    + discriminate.
    + exfalso. revert Hnil. apply unique_nonempty.
      intros Hraw. apply (f_equal (@List.length Z)) in Hraw.
      unfold linspace_starts in Hraw. rewrite linspace_length in Hraw.
      simpl in Hraw. lia.
  - intros H. now rewrite plan_degenerate.
Qed.

(** X2. Whatever the input, the offsets of the plan are strictly ascending
    and there are at most [max(1, num_samples)] of them; the chunk length
    is [sr * interval_seconds]; and when [max_start] and [num_samples] are
    at most [2^53], so that [np.linspace] computes with exact integers,
    each offset is the index of a frame of the file. *)
Theorem plan_is_well_formed
    (total_frames sr interval_seconds num_samples : Z) :
  let plan :=
    compute_sample_positions total_frames sr interval_seconds num_samples in
  StronglySorted Z.lt (fst plan) /\
  (total_frames - sr * interval_seconds <= 2 ^ 53 -> num_samples <= 2 ^ 53 ->
   forall o, In o (fst plan) -> 0 <= o < total_frames) /\
  Z.of_nat (List.length (fst plan)) <= Z.max 1 num_samples /\
  snd plan = sr * interval_seconds.
Proof.
  intros plan.
  destruct (plan_cases total_frames sr interval_seconds num_samples)
    as [[_ Hp]|[(_ & Htot & _ & _ & Hp)|(_ & _ & Hfpi & Hlong & Hp)]];
    fold plan in Hp; rewrite Hp; simpl.
  - split; [constructor|]. split; [intros _ _ o []|split; [lia|reflexivity]].
  - split; [repeat constructor|]. split; [|split; [lia|reflexivity]].
    intros _ _ o [<-|[]]. lia.
  - split; [apply unique_StronglySorted|]. split; [|split; [|reflexivity]].
    + intros Hmax Hnum o Ho. apply (proj1 (unique_In _ _)) in Ho.
      unfold linspace_starts in Ho. apply linspace_In_range in Ho; lia.
    + pose proof (unique_length
                    (linspace_starts total_frames (sr * interval_seconds)
                                     num_samples)) as Hlen.
      unfold linspace_starts in Hlen at 2. rewrite linspace_length in Hlen.
      lia.
Qed.

End PlanShape.

Section PlanCoverage.

Lemma sorted_hd_min (l : list Z) (lo d : Z) :
  StronglySorted Z.lt l -> In lo l -> (forall o, In o l -> lo <= o) ->
  hd d l = lo.
Proof.
  intros Hs Hin Hmin. destruct Hs as [|x t _ Hx]; [inversion Hin|]. simpl.
  destruct Hin as [Heq|Hin]; [assumption|].
  rewrite Forall_forall in Hx. specialize (Hx lo Hin).
  specialize (Hmin x (or_introl eq_refl)). lia.
Qed.

Lemma sorted_last_max (l : list Z) (hi d : Z) :
  StronglySorted Z.lt l -> In hi l -> (forall o, In o l -> o <= hi) ->
  last l d = hi.
Proof.
  induction 1 as [|x t Ht IH Hx]; intros Hin Hmax; [inversion Hin|].
  rewrite Forall_forall in Hx.
  destruct t as [|y u].
  - destruct Hin as [Heq|[]]. exact Heq.
  - change (last (x :: y :: u) d) with (last (y :: u) d).
    apply IH.
    + destruct Hin as [Heq|Hin]; [|assumption].
      subst x. specialize (Hx y (or_introl eq_refl)).
      specialize (Hmax y (or_intror (or_introl eq_refl))). lia.
    + intros o Ho. apply Hmax. now right.
Qed.

Lemma raw_In_zero (stop num : Z) : 1 <= num -> In 0 (Np.linspace 0 stop num).
Proof.
  intros Hnum.
  rewrite <- (linspace_first stop num Hnum) at 1.
  apply nth_In. rewrite linspace_length. lia.
Qed.

Lemma raw_In_stop (stop num : Z) :
  1 < num -> 0 <= stop <= 2 ^ 53 -> In stop (Np.linspace 0 stop num).
Proof.
  intros Hnum Hstop.
  rewrite <- (linspace_last stop num Hnum Hstop) at 1.
  apply nth_In. rewrite linspace_length. lia.
Qed.

(** X3. For a file longer than one chunk, with [max_start] and
    [num_samples] at most [2^53], the first planned chunk starts at frame
    0; when at least two samples are requested the last planned chunk
    starts at [max_start], so that it ends with the last frame of the
    file. *)
Theorem plan_covers_both_ends
    (total_frames sr interval_seconds num_samples : Z) :
  0 < sr -> 0 < total_frames -> 0 < sr * interval_seconds ->
  sr * interval_seconds < total_frames ->
  total_frames - sr * interval_seconds <= 2 ^ 53 ->
  num_samples <= 2 ^ 53 ->
  let plan :=
    fst (compute_sample_positions total_frames sr interval_seconds
                                  num_samples) in
  hd 1 plan = 0 /\
  (2 <= num_samples ->
   last plan 0 + sr * interval_seconds = total_frames).
Proof.
  intros Hsr Htot Hfpi Hlong Hmax Hcount plan.
  assert (Hp : plan = Np.unique (linspace_starts total_frames
                                   (sr * interval_seconds) num_samples))
    by (unfold plan; now rewrite plan_long).
  assert (Hrange : forall o, In o plan ->
                     0 <= o <= total_frames - sr * interval_seconds).
  { intros o Ho. rewrite Hp in Ho. apply (proj1 (unique_In _ _)) in Ho.
    unfold linspace_starts in Ho. apply linspace_In_range in Ho; lia. }
  assert (Hs : StronglySorted Z.lt plan)
    by (rewrite Hp; apply unique_StronglySorted).
  split.
  - apply sorted_hd_min; [exact Hs | | intros o Ho; now apply Hrange].
    rewrite Hp. apply unique_In. apply raw_In_zero. lia.
  - intros Hnum.
    rewrite (sorted_last_max plan (total_frames - sr * interval_seconds) 0);
      [lia | exact Hs | | intros o Ho; now apply Hrange].
    rewrite Hp. apply unique_In. apply raw_In_stop; lia.
Qed.

End PlanCoverage.

Lemma plan_is_well_formed_witness :
  StronglySorted Z.lt (fst (compute_sample_positions 10 1 7 16)) /\
  (forall o, In o (fst (compute_sample_positions 10 1 7 16)) -> 0 <= o < 10).
Proof.
  pose proof (plan_is_well_formed 10 1 7 16) as H. cbv zeta in H.
  destruct H as (Hsorted & Hrange & _ & _).
  split; [exact Hsorted | exact (Hrange ltac:(lia) ltac:(lia))].
Defined.

Lemma plan_covers_both_ends_witness :
  hd 1 (fst (compute_sample_positions 345600000 48000 7 16)) = 0 /\
  last (fst (compute_sample_positions 345600000 48000 7 16)) 0 + 48000 * 7
  = 345600000.
Proof.
  pose proof (plan_covers_both_ends 345600000 48000 7 16
                ltac:(lia) ltac:(lia) ltac:(lia) ltac:(lia) ltac:(lia)
                ltac:(lia)) as H.
  cbv zeta in H. destruct H as [Hhd Hlast].
  split; [exact Hhd | exact (Hlast ltac:(lia))].
Defined.

(** * Further properties of the classifier *)

Section ScanCases.

Variable format_6g : float -> string.
Variable cfg : Config.

Let scan : WavFile -> ScanResult := scan_wav_for_silence format_6g cfg.
Let thr : Q := SILENCE_THRESHOLD cfg.

(** Either every chunk of [todo] is quiet, or there is a first one at
    which the scan stops. *)
Lemma first_stop (f : SoundFile) (fpi : Z) (todo : list Z) :
  Forall (quiet cfg f fpi) todo \/
  exists pre k post,
    todo = pre ++ k :: post /\ Forall (quiet cfg f fpi) pre /\
    ((exists e, seek_fails f k e) \/
     (exists e, read_fails f fpi k e) \/
     (exists data, loud cfg f fpi k data)).
Proof.
  induction todo as [|s rest IH]; [left; constructor|].
  assert (Hstop : forall P : Prop,
            ((exists e, seek_fails f s e) \/
             (exists e, read_fails f fpi s e) \/
             (exists data, loud cfg f fpi s data)) ->
            P \/ exists pre k post,
                   s :: rest = pre ++ k :: post /\
                   Forall (quiet cfg f fpi) pre /\
                   ((exists e, seek_fails f k e) \/
                    (exists e, read_fails f fpi k e) \/
                    (exists data, loud cfg f fpi k data))).
  { intros P H. right. exists [], s, rest. repeat split; auto. }
  assert (Hgo : quiet cfg f fpi s ->
            Forall (quiet cfg f fpi) (s :: rest) \/
            exists pre k post,
              s :: rest = pre ++ k :: post /\
              Forall (quiet cfg f fpi) pre /\
              ((exists e, seek_fails f k e) \/
               (exists e, read_fails f fpi k e) \/
               (exists data, loud cfg f fpi k data))).
  { intros Hs. destruct IH as [Hall|(pre & k & post & -> & Hpre & Hk)].
    - left. now constructor.
    - right. exists (s :: pre), k, post.
      split; [reflexivity|]. split; [now constructor | exact Hk]. }
  destruct (sf_seek f s) as [e|[]] eqn:Hseek.
  { apply Hstop. left. now exists e. }
  destruct (sf_read f s fpi) as [e|data] eqn:Hread.
  { apply Hstop. right; left. exists e. now split. }
  assert (Hreadable : readable f fpi s) by (split; [assumption | eauto]).
  destruct (size data =? 0) eqn:Hsize.
  { apply Hgo. split; [assumption|].
    unfold chunk_peak. rewrite Hread, Hsize. discriminate. }
  destruct (fgtb (np_max_abs data) (Finite thr)) eqn:Hgt.
  - apply Hstop. right; right. exists data.
    split; [exact Hseek|]. split; [exact Hread|].
    split; [exact Hsize | exact Hgt].
  - apply Hgo. split; [assumption|].
    unfold chunk_peak. rewrite Hread, Hsize.
    intros peak [= <-]. exact Hgt.
Qed.

(** [scan_wav_for_silence] follows one of the paths of [Classified]. *)
Lemma classified_scan (w : WavFile) :
  Classified format_6g cfg w (scan w) (scan_calls format_6g cfg w).
Proof.
  unfold scan_calls, scan, scan_wav_for_silence.
  destruct (stat_result w) as [e|size_bytes] eqn:Hstat.
  { rewrite (body_stat_raises format_6g cfg w e Hstat). simpl.
    now apply StatFailed. }
  destruct (size_bytes <? MIN_SIZE_BYTES cfg) eqn:Hgate.
  { assert (Hb : scan_body format_6g cfg w world0
                 = (mkWorld 0 [Stat], inr (gate_row cfg w size_bytes))).
    { unfold scan_body, stat, bind, call, lift. simpl.
      now rewrite Hstat, Hgate. }
    rewrite Hb. simpl. now apply Gated. }
  destruct (open_result w) as [e|f] eqn:Hopen.
  { rewrite (body_open_raises format_6g cfg w size_bytes e Hstat Hgate Hopen).
    simpl. now apply (OpenFailed _ _ _ size_bytes). }
  destruct (compute_sample_positions (sf_len f) (sf_samplerate f)
              (INTERVAL_SECONDS cfg) (NUM_SAMPLES_PER_FILE cfg))
    as [starts fpi] eqn:Hplan.
  assert (Hreach : reaches_plan cfg w size_bytes f starts fpi)
    by (repeat split; assumption).
  destruct starts as [|s0 rest] eqn:Hstarts.
  { rewrite (body_empty_plan format_6g cfg w size_bytes f fpi Hreach). simpl.
    now apply (NoPlan _ _ _ size_bytes f fpi). }
  rewrite <- Hstarts in *.
  assert (Hne : starts <> []) by (rewrite Hstarts; discriminate).
  clear Hstarts s0 rest.
  rewrite (body_loop format_6g cfg w size_bytes f starts fpi Hreach Hne).
  unfold file_loop.
  destruct (first_stop f fpi starts)
    as [Hall|(pre & k & post & Hsplit & Hpre & [[e Hk]|[[e Hk]|[data Hk]]])].
  - destruct (loop_quiet_prefix format_6g cfg (str_path w) f size_bytes
                (sf_samplerate f) (sf_channels f) (duration_of f) starts fpi
                starts [] (Finite 0) world_opened Hall) as [p Hp].
    rewrite app_nil_r in Hp. rewrite Hp. simpl.
    now apply AllQuiet.
  - destruct (loop_quiet_prefix format_6g cfg (str_path w) f size_bytes
                (sf_samplerate f) (sf_channels f) (duration_of f) starts fpi
                pre (k :: post) (Finite 0) world_opened Hpre) as [p Hp].
    rewrite (loop_seek_raises _ _ _ _ _ _ _ _ _ _ k post _ _ e Hk) in Hp.
    rewrite <- Hsplit in Hp. rewrite Hp. simpl.
    rewrite <- app_assoc. simpl.
    now apply (SeekFailed _ _ _ size_bytes f starts fpi pre post k e).
  - destruct Hk as [Hseek Hread].
    destruct (loop_quiet_prefix format_6g cfg (str_path w) f size_bytes
                (sf_samplerate f) (sf_channels f) (duration_of f) starts fpi
                pre (k :: post) (Finite 0) world_opened Hpre) as [p Hp].
    rewrite (loop_read_raises _ _ _ _ _ _ _ _ _ _ k post _ _ e Hseek Hread)
      in Hp.
    rewrite <- Hsplit in Hp. rewrite Hp. simpl. rewrite <- app_assoc.
    replace (visits fpi pre ++ visit fpi k ++ [Close])
      with (visits fpi (pre ++ [k]) ++ [Close])
      by (rewrite visits_app, <- app_assoc; reflexivity).
    apply (ReadFailed _ _ _ size_bytes f starts fpi pre post k e);
      try assumption. now split.
  - destruct Hk as (Hseek & Hread & Hsize & Hgt).
    destruct (loop_stops_at format_6g cfg (str_path w) f size_bytes
                (sf_samplerate f) (sf_channels f) (duration_of f) starts fpi
                pre post k data (Finite 0) world_opened Hpre Hseek Hread Hsize Hgt)
      as [p Hp].
    rewrite <- Hsplit in Hp. rewrite Hp. simpl.
    apply (LoudChunk _ _ _ size_bytes f starts fpi pre post k data);
      try assumption. repeat split; assumption.
Qed.

Lemma plan_facts (total_frames sr interval_seconds num_samples fpi : Z)
    (starts : list Z) :
  compute_sample_positions total_frames sr interval_seconds num_samples
  = (starts, fpi) ->
  fpi = sr * interval_seconds /\
  Z.of_nat (List.length starts) <= Z.max 1 num_samples /\
  (total_frames - sr * interval_seconds <= 2 ^ 53 -> num_samples <= 2 ^ 53 ->
   forall o, In o starts -> 0 <= o < total_frames).
Proof.
  intros Hplan.
  destruct (plan_cases total_frames sr interval_seconds num_samples)
    as [[_ Hp]|[(_ & Htot & _ & _ & Hp)|(_ & _ & Hfpi & Hlong & Hp)]];
    rewrite Hplan in Hp; injection Hp as -> ->.
  - split; [reflexivity|]. split; [simpl; lia | intros _ _ o []].
  - split; [reflexivity|]. split; [simpl; lia|]. intros _ _ o [<-|[]]. lia.
  - split; [reflexivity|]. split.
    + pose proof (unique_length
                    (linspace_starts total_frames (sr * interval_seconds)
                                     num_samples)) as Hlen.
      unfold linspace_starts in Hlen at 2. rewrite linspace_length in Hlen.
      lia.
    + intros Hmax Hnum o Ho. apply (proj1 (unique_In _ _)) in Ho.
      unfold linspace_starts in Ho. apply linspace_In_range in Ho; lia.
Qed.

Lemma reaches_plan_size (w : WavFile) (size_bytes : Z) (f : SoundFile)
    (starts : list Z) (fpi : Z) :
  reaches_plan cfg w size_bytes f starts fpi ->
  Z.of_nat (List.length starts) <= Z.max 1 (NUM_SAMPLES_PER_FILE cfg).
Proof.
  intros (_ & _ & _ & Hplan). now destruct (plan_facts _ _ _ _ _ _ Hplan) as (_ & H & _).
Qed.

Lemma split_length (pre post : list Z) (k : Z) :
  (1 <= Z.of_nat (List.length (pre ++ k :: post)))%Z.
Proof. rewrite length_app. simpl. lia. Qed.

(** X6. A file whose size is below [MIN_SIZE_BYTES] is kept without being
    opened: the only call made is [stat], and the row is KEEP with the
    size found, the gate cited in the detail, and zero audio fields. *)
Theorem small_file_is_kept_unopened (w : WavFile) (size_bytes : Z) :
  stat_result w = inr size_bytes -> size_bytes < MIN_SIZE_BYTES cfg ->
  scan w
  = mkScanResult (str_path w) "KEEP"
      ("Below MIN_SIZE_BYTES (" ++ str_int size_bytes ++ " < "
       ++ str_int (MIN_SIZE_BYTES cfg) ++ ").")
      size_bytes 0%Q 0 0 (INTERVAL_SECONDS cfg) 0 (SILENCE_THRESHOLD cfg)
      (Finite 0) /\
  scan_calls format_6g cfg w = [Stat].
Proof.
  intros Hstat Hlt. apply Z.ltb_lt in Hlt.
  assert (Hb : scan_body format_6g cfg w world0
               = (mkWorld 0 [Stat], inr (gate_row cfg w size_bytes))).
  { unfold scan_body, stat, bind, call, lift. simpl.
    now rewrite Hstat, Hlt. }
  split.
  - eapply scan_of_result. exact Hb.
  - unfold scan_calls. now rewrite Hb.
Qed.

(** X7. Every row returned carries the path it was asked about and the
    configured interval and threshold; its decision is one of SILENT, KEEP
    and ERROR; its [num_samples_used] is between 0 and
    [max(1, NUM_SAMPLES_PER_FILE)]; its [max_abs_seen] is not negative. *)
Theorem row_is_well_formed (w : WavFile) :
  let res := scan w in
  path res = str_path w /\
  (decision res = "SILENT" \/ decision res = "KEEP"
   \/ decision res = "ERROR")%string /\
  interval_seconds res = INTERVAL_SECONDS cfg /\
  threshold res = SILENCE_THRESHOLD cfg /\
  0 <= num_samples_used res <= Z.max 1 (NUM_SAMPLES_PER_FILE cfg) /\
  fle (Finite 0) (max_abs_seen res).
Proof.
  intros res. unfold res. clear res.
  pose proof (classified_scan w) as Hc.
  remember (scan w) as res. remember (scan_calls format_6g cfg w) as cs.
  destruct Hc as [e H|sz H Hg|sz e H Hg|sz f fpi Hr|sz f st fpi Hr Hne Hq
                 |sz f st fpi pre post k data Hr Hsp Hq Hl
                 |sz f st fpi pre post k e Hr|sz f st fpi pre post k e Hr];
    simpl;
    (split; [reflexivity|]); (split; [tauto|]);
    (split; [reflexivity|]); (split; [reflexivity|]);
    try (split; [lia | reflexivity]).
  - split; [pose proof (reaches_plan_size w sz f st fpi Hr); lia|].
    now apply running_max_ge_init.
  - split; [pose proof (reaches_plan_size w sz f st fpi Hr); lia|].
    eapply fle_trans; [apply running_max_ge_init; reflexivity|].
    apply py_max_l. now apply running_max_not_nan.
Qed.

(** X8. An ERROR row, whichever way it arises, reports no samples used and
    no amplitude. *)
Theorem error_row_has_no_signal (w : WavFile) :
  decision (scan w) = "ERROR"%string ->
  num_samples_used (scan w) = 0 /\ max_abs_seen (scan w) = Finite 0.
Proof.
  pose proof (classified_scan w) as Hc.
  remember (scan w) as res. remember (scan_calls format_6g cfg w) as cs.
  destruct Hc; simpl; intros Hd; try discriminate; split; reflexivity.
Qed.

(** X9. A file is classified SILENT only after every planned chunk has been
    sought and read, none of them measured above the threshold: the file
    was opened, the plan is not empty, and the calls made are the visits of
    all planned offsets, in order, between the open and the close. *)
Theorem silent_only_after_full_scan (w : WavFile) :
  decision (scan w) = "SILENT"%string ->
  exists size f starts fpi,
    reaches_plan cfg w size f starts fpi /\ starts <> [] /\
    Forall (quiet cfg f fpi) starts /\
    scan_calls format_6g cfg w = [Stat; Open] ++ visits fpi starts ++ [Close] /\
    size_bytes (scan w) = size /\
    num_samples_used (scan w) = Z.of_nat (List.length starts).
Proof.
  pose proof (classified_scan w) as Hc.
  remember (scan w) as res. remember (scan_calls format_6g cfg w) as cs.
  destruct Hc as [| | | |sz f st fpi Hr Hne Hq| | |]; simpl; intros Hd;
    try discriminate.
  exists sz, f, st, fpi.
  split; [exact Hr|]. split; [exact Hne|]. split; [exact Hq|].
  split; [reflexivity|]. split; reflexivity.
Qed.

(** X10. The amplitude reported on a SILENT row is either the initial 0.0 or a
    measured peak that is at most the threshold. *)
Theorem silent_row_amplitude (w : WavFile) :
  decision (scan w) = "SILENT"%string ->
  max_abs_seen (scan w) = Finite 0 \/
  fle (max_abs_seen (scan w)) (Finite (SILENCE_THRESHOLD cfg)).
Proof.
  pose proof (classified_scan w) as Hc.
  remember (scan w) as res. remember (scan_calls format_6g cfg w) as cs.
  destruct Hc as [| | | |sz f st fpi Hr Hne Hq| | |]; simpl; intros Hd;
    try discriminate.
  destruct (running_max_attained (probed_peaks f fpi st) (Finite 0))
    as [H0|[Hin Hn]]; [now left|right].
  apply fgtb_false_fle; [exact Hn | reflexivity|].
  eapply quiet_peaks_not_above; eassumption.
Qed.

(** X11. A KEEP row comes either from the size gate, with no samples used, or
    from a chunk measured above the threshold, in which case
    [max_abs_seen] is strictly above the threshold. *)
Theorem keep_row_has_a_cause (w : WavFile) :
  decision (scan w) = "KEEP"%string ->
  (exists size,
     stat_result w = inr size /\ size < MIN_SIZE_BYTES cfg /\
     num_samples_used (scan w) = 0 /\
     scan_calls format_6g cfg w = [Stat]) \/
  (flt (Finite (SILENCE_THRESHOLD cfg)) (max_abs_seen (scan w)) /\
   1 <= num_samples_used (scan w)).
Proof.
  pose proof (classified_scan w) as Hc.
  remember (scan w) as res. remember (scan_calls format_6g cfg w) as cs.
  destruct Hc as [|sz H Hg| | |
                 |sz f st fpi pre post k data Hr Hsp Hq Hl| |];
    simpl; intros Hd; try discriminate.
  - left. exists sz. apply Z.ltb_lt in Hg. repeat split; assumption.
  - right. destruct Hl as (_ & _ & _ & Hgt). split.
    + eapply flt_fle_trans; [exact Hgt|].
      apply py_max_r; [now apply running_max_not_nan|].
      unfold flt in Hgt. now apply fgtb_not_nan in Hgt.
    + rewrite Hsp. apply split_length.
Qed.

Lemma visits_are_chunk_calls (fpi : Z) (l : list Z) :
  Forall (fun ev => is_chunk_call ev = true) (visits fpi l).
Proof.
  unfold visits. induction l as [|s t IH]; simpl; [constructor|].
  repeat constructor. exact IH.
Qed.

Lemma reads_of_visits (fpi : Z) (l : list Z) :
  filter is_read (visits fpi l) = map (fun s => Read s fpi) l.
Proof.
  unfold visits. induction l as [|s t IH]; simpl; [reflexivity|].
  now rewrite IH.
Qed.

Lemma reads_of_calls (fpi : Z) (done : list Z) (tail : list event) :
  filter is_read tail = [] ->
  filter is_read ([Stat; Open] ++ visits fpi done ++ tail)
  = map (fun s => Read s fpi) done.
Proof.
  intros Htail. simpl. now rewrite filter_app, Htail, app_nil_r, reads_of_visits.
Qed.

Lemma seek_in_visits (fpi p : Z) (l : list Z) :
  In p l -> In (Seek p) (visits fpi l).
Proof.
  intros Hp. unfold visits. apply in_flat_map. exists p.
  split; [assumption | now left].
Qed.

(** X12. The stream is scoped: [stat] comes first; the file is opened at most
    once, and only after the size gate; every [seek] and [read] lies
    between the open and the close; and the close is made exactly when the
    open succeeded, whether the scan then returns or raises. *)
Theorem stream_is_scoped (w : WavFile) :
  (scan_calls format_6g cfg w = [Stat] /\
   ((exists e, stat_result w = inl e) \/
    (exists size, stat_result w = inr size /\ size < MIN_SIZE_BYTES cfg))) \/
  (scan_calls format_6g cfg w = [Stat; Open] /\
   exists e, open_result w = inl e) \/
  (exists f mid,
     open_result w = inr f /\
     Forall (fun ev => is_chunk_call ev = true) mid /\
     scan_calls format_6g cfg w = [Stat; Open] ++ mid ++ [Close]).
Proof.
  pose proof (classified_scan w) as Hc.
  remember (scan w) as res. remember (scan_calls format_6g cfg w) as cs.
  destruct Hc as [e H|sz H Hg|sz e H Hg Ho|sz f fpi Hr|sz f st fpi Hr Hne Hq
                 |sz f st fpi pre post k data Hr Hsp Hq Hl
                 |sz f st fpi pre post k e Hr Hsp Hq Hk
                 |sz f st fpi pre post k e Hr Hsp Hq Hk].
  - left. split; [reflexivity|]. left. now exists e.
  - left. split; [reflexivity|]. right. exists sz. apply Z.ltb_lt in Hg.
    now split.
  - right; left. split; [reflexivity|]. now exists e.
  - right; right. destruct Hr as (_ & _ & Ho & _).
    exists f, []. repeat split; [assumption | constructor].
  - right; right. destruct Hr as (_ & _ & Ho & _).
    exists f, (visits fpi st).
    repeat split; [assumption | apply visits_are_chunk_calls].
  - right; right. destruct Hr as (_ & _ & Ho & _).
    exists f, (visits fpi (pre ++ [k])).
    repeat split; [assumption | apply visits_are_chunk_calls].
  - right; right. destruct Hr as (_ & _ & Ho & _).
    exists f, (visits fpi pre ++ [Seek k]).
    split; [assumption|]. split.
    + apply Forall_app. split; [apply visits_are_chunk_calls|].
      repeat constructor.
    + now rewrite <- app_assoc.
  - right; right. destruct Hr as (_ & _ & Ho & _).
    exists f, (visits fpi (pre ++ [k])).
    repeat split; [assumption | apply visits_are_chunk_calls].
Qed.

(** X13. The reads of a classification are bounded: there are at most
    [max(1, NUM_SAMPLES_PER_FILE)] of them, each asks for
    [samplerate * INTERVAL_SECONDS] frames, each is issued at an offset of
    the plan and follows a seek to that offset; and when [max_start] and
    [NUM_SAMPLES_PER_FILE] are at most [2^53], each is issued at the index
    of a frame of the file. *)
Theorem reads_are_bounded (w : WavFile) :
  let cs := scan_calls format_6g cfg w in
  Z.of_nat (List.length (filter is_read cs))
  <= Z.max 1 (NUM_SAMPLES_PER_FILE cfg) /\
  (forall p n, In (Read p n) cs ->
     In (Seek p) cs /\
     exists f, open_result w = inr f /\
               n = sf_samplerate f * INTERVAL_SECONDS cfg /\
               In p (fst (compute_sample_positions
                            (sf_len f) (sf_samplerate f)
                            (INTERVAL_SECONDS cfg)
                            (NUM_SAMPLES_PER_FILE cfg))) /\
               (sf_len f - sf_samplerate f * INTERVAL_SECONDS cfg <= 2 ^ 53 ->
                NUM_SAMPLES_PER_FILE cfg <= 2 ^ 53 ->
                0 <= p < sf_len f)).
Proof.
  intros cs0. unfold cs0. clear cs0.
  assert (Hshape : forall sz f st fpi done rest tail,
            reaches_plan cfg w sz f st fpi -> st = done ++ rest ->
            filter is_read tail = [] ->
            let cs := [Stat; Open] ++ visits fpi done ++ tail in
            Z.of_nat (List.length (filter is_read cs))
            <= Z.max 1 (NUM_SAMPLES_PER_FILE cfg) /\
            (forall p n, In (Read p n) cs ->
               In (Seek p) cs /\
               exists f0, open_result w = inr f0 /\
                 n = sf_samplerate f0 * INTERVAL_SECONDS cfg /\
                 In p (fst (compute_sample_positions
                              (sf_len f0) (sf_samplerate f0)
                              (INTERVAL_SECONDS cfg)
                              (NUM_SAMPLES_PER_FILE cfg))) /\
                 (sf_len f0 - sf_samplerate f0 * INTERVAL_SECONDS cfg
                  <= 2 ^ 53 ->
                  NUM_SAMPLES_PER_FILE cfg <= 2 ^ 53 ->
                  0 <= p < sf_len f0))).
  { intros sz f st fpi done rest tail Hr Hst Htail cs.
    pose proof (reaches_plan_size w sz f st fpi Hr) as Hlen.
    destruct Hr as (_ & _ & Ho & Hplan).
    destruct (plan_facts _ _ _ _ _ _ Hplan) as (Hfpi & _ & Hrange).
    assert (Hreads : filter is_read cs = map (fun s => Read s fpi) done)
      by now apply reads_of_calls.
    split.
    - rewrite Hreads, length_map. rewrite Hst, length_app in Hlen. lia.
    - intros p n Hin.
      assert (Hin' : In (Read p n) (filter is_read cs))
        by (apply filter_In; now split).
      rewrite Hreads in Hin'. apply in_map_iff in Hin'.
      destruct Hin' as [s [[= -> ->] Hs]].
      split.
      + unfold cs. simpl. right; right. apply in_or_app. left.
        now apply seek_in_visits.
      + assert (Hp : In p st) by (rewrite Hst; apply in_or_app; now left).
        exists f. split; [assumption|]. split; [assumption|]. split.
        * rewrite Hplan. exact Hp.
        * intros Hmax Hnum. now apply Hrange. }
  pose proof (classified_scan w) as Hc.
  remember (scan w) as res. remember (scan_calls format_6g cfg w) as cs.
  destruct Hc as [e H|sz H Hg|sz e H Hg Ho|sz f fpi Hr|sz f st fpi Hr Hne Hq
                 |sz f st fpi pre post k data Hr Hsp Hq Hl
                 |sz f st fpi pre post k e Hr Hsp Hq Hk
                 |sz f st fpi pre post k e Hr Hsp Hq Hk].
  - simpl. split; [lia|]. intros p n [|[]]; discriminate.
  - simpl. split; [lia|]. intros p n [|[]]; discriminate.
  - simpl. split; [lia|]. intros p n [|[|[]]]; discriminate.
  - simpl. split; [lia|]. intros p n [|[|[|[]]]]; discriminate.
  - apply (Hshape sz f st fpi st [] [Close] Hr); [now rewrite app_nil_r|].
    reflexivity.
  - apply (Hshape sz f st fpi (pre ++ [k]) post [Close] Hr);
      [now rewrite <- app_assoc | reflexivity].
  - apply (Hshape sz f st fpi pre (k :: post) [Seek k; Close] Hr);
      [assumption | reflexivity].
  - apply (Hshape sz f st fpi (pre ++ [k]) post [Close] Hr);
      [now rewrite <- app_assoc | reflexivity].
Qed.

Lemma scan_chunks_ext (f1 f2 : SoundFile) (str_wav_path : string)
    (size_bytes sr ch : Z) (duration_sec : Q) (starts : list Z) (fpi : Z)
    (todo : list Z) (mx : float) (w0 : World) :
  (forall s, In s todo ->
     sf_seek f1 s = sf_seek f2 s /\ sf_read f1 s fpi = sf_read f2 s fpi) ->
  scan_chunks format_6g cfg str_wav_path f1 size_bytes sr ch duration_sec
              starts fpi todo mx w0
  = scan_chunks format_6g cfg str_wav_path f2 size_bytes sr ch duration_sec
                starts fpi todo mx w0.
Proof.
  revert mx w0. induction todo as [|s rest IH]; intros mx w0 Hagree;
    [reflexivity|].
  destruct (Hagree s (or_introl eq_refl)) as [Hseek Hread].
  assert (Hrest : forall s', In s' rest ->
            sf_seek f1 s' = sf_seek f2 s' /\
            sf_read f1 s' fpi = sf_read f2 s' fpi)
    by (intros s' Hs'; apply Hagree; now right).
  destruct (sf_seek f1 s) as [e|[]] eqn:Hseek1.
  { rewrite (loop_seek_raises _ _ _ f1 _ _ _ _ _ _ s rest mx w0 e Hseek1).
    symmetry in Hseek.
    now rewrite (loop_seek_raises _ _ _ f2 _ _ _ _ _ _ s rest mx w0 e Hseek). }
  symmetry in Hseek.
  destruct (sf_read f1 s fpi) as [e|data] eqn:Hread1; symmetry in Hread.
  { rewrite (loop_read_raises _ _ _ f1 _ _ _ _ _ _ s rest mx w0 e Hseek1 Hread1).
    now rewrite (loop_read_raises _ _ _ f2 _ _ _ _ _ _ s rest mx w0 e Hseek Hread). }
  rewrite (loop_read _ _ _ f1 _ _ _ _ _ _ s rest mx w0 data Hseek1 Hread1).
  rewrite (loop_read _ _ _ f2 _ _ _ _ _ _ s rest mx w0 data Hseek Hread).
  cbv zeta.
  destruct (size data =? 0); [now apply IH|].
  destruct (fgtb (np_max_abs data) (Finite (SILENCE_THRESHOLD cfg)));
    [reflexivity | now apply IH].
Qed.

(** X14. The classification looks at nothing but the header and the planned
    chunks: two files with the same path, the same [stat] answer and the
    same header, whose [seek] and [read] answer alike at every planned
    offset, get the same row through the same calls, whatever they contain
    elsewhere. *)
Theorem only_planned_chunks_matter (w1 w2 : WavFile) (f1 f2 : SoundFile) :
  str_path w1 = str_path w2 ->
  stat_result w1 = stat_result w2 ->
  open_result w1 = inr f1 -> open_result w2 = inr f2 ->
  sf_samplerate f1 = sf_samplerate f2 ->
  sf_channels f1 = sf_channels f2 ->
  sf_len f1 = sf_len f2 ->
  (forall s,
     In s (fst (compute_sample_positions (sf_len f1) (sf_samplerate f1)
                  (INTERVAL_SECONDS cfg) (NUM_SAMPLES_PER_FILE cfg))) ->
     sf_seek f1 s = sf_seek f2 s /\
     sf_read f1 s (sf_samplerate f1 * INTERVAL_SECONDS cfg)
     = sf_read f2 s (sf_samplerate f1 * INTERVAL_SECONDS cfg)) ->
  scan w1 = scan w2 /\
  scan_calls format_6g cfg w1 = scan_calls format_6g cfg w2.
Proof.
  intros Hpath Hstat Ho1 Ho2 Hsr Hch Hlen Hagree.
  assert (Hbody : scan_body format_6g cfg w1 world0
                  = scan_body format_6g cfg w2 world0).
  { destruct (stat_result w1) as [e|sz] eqn:Hs1; symmetry in Hstat.
    { now rewrite (body_stat_raises format_6g cfg w1 e Hs1),
                  (body_stat_raises format_6g cfg w2 e Hstat). }
    destruct (sz <? MIN_SIZE_BYTES cfg) eqn:Hgate.
    { unfold scan_body, stat, bind, call, lift. simpl.
      now rewrite Hs1, Hstat, Hgate, Hpath. }
    destruct (compute_sample_positions (sf_len f1) (sf_samplerate f1)
                (INTERVAL_SECONDS cfg) (NUM_SAMPLES_PER_FILE cfg))
      as [starts fpi] eqn:Hplan.
    destruct (plan_facts _ _ _ _ _ _ Hplan) as (Hfpi & _ & _).
    assert (Hr1 : reaches_plan cfg w1 sz f1 starts fpi)
      by (repeat split; assumption).
    assert (Hr2 : reaches_plan cfg w2 sz f2 starts fpi)
      by (repeat split; try assumption; now rewrite <- Hlen, <- Hsr).
    destruct starts as [|s0 rest] eqn:Hstarts.
    { rewrite (body_empty_plan format_6g cfg w1 sz f1 fpi Hr1),
              (body_empty_plan format_6g cfg w2 sz f2 fpi Hr2).
      unfold duration_of. now rewrite Hpath, Hsr, Hch, Hlen. }
    rewrite <- Hstarts in *.
    assert (Hne : starts <> []) by (rewrite Hstarts; discriminate).
    rewrite (body_loop format_6g cfg w1 sz f1 starts fpi Hr1 Hne),
            (body_loop format_6g cfg w2 sz f2 starts fpi Hr2 Hne).
    unfold file_loop, duration_of. rewrite <- Hpath, <- Hsr, <- Hch, <- Hlen.
    rewrite (scan_chunks_ext f1 f2); [reflexivity|].
    simpl in Hagree. rewrite <- Hfpi in Hagree. exact Hagree. }
  unfold scan_calls, scan, scan_wav_for_silence.
  rewrite Hbody, Hpath. split; reflexivity.
Qed.

End ScanCases.

Section ScanInstances.

Import Samples.

Let scan : WavFile -> ScanResult := scan_wav_for_silence show_ratio cfg_delete.

Lemma small_file_is_kept_unopened_witness :
  scan_wav_for_silence show_ratio cfg_gated wav_no_frames
  = mkScanResult "header_only.wav" "KEEP" "Below MIN_SIZE_BYTES (44 < 1000)."
                 44 0%Q 0 0 7 0 (1 # 10000)%Q (Finite 0) /\
  scan_calls show_ratio cfg_gated wav_no_frames = [Stat].
Proof.
  apply (small_file_is_kept_unopened show_ratio cfg_gated wav_no_frames 44).
  - reflexivity.
  - simpl. lia.
Defined.

Lemma error_row_has_no_signal_witness :
  num_samples_used (scan wav_broken) = 0 /\ max_abs_seen (scan wav_broken) = Finite 0.
Proof.
  apply (error_row_has_no_signal show_ratio cfg_delete wav_broken).
  vm_compute. reflexivity.
Defined.

Lemma silent_only_after_full_scan_witness :
  exists size f starts fpi,
    reaches_plan cfg_delete wav_quiet size f starts fpi /\ starts <> [] /\
    Forall (quiet cfg_delete f fpi) starts /\
    scan_calls show_ratio cfg_delete wav_quiet
    = [Stat; Open] ++ visits fpi starts ++ [Close] /\
    size_bytes (scan wav_quiet) = size /\
    num_samples_used (scan wav_quiet) = Z.of_nat (List.length starts).
Proof.
  apply (silent_only_after_full_scan show_ratio cfg_delete wav_quiet).
  vm_compute. reflexivity.
Defined.

Lemma silent_row_amplitude_witness :
  max_abs_seen (scan wav_quiet) = Finite 0 \/
  fle (max_abs_seen (scan wav_quiet)) (Finite (SILENCE_THRESHOLD cfg_delete)).
Proof.
  apply (silent_row_amplitude show_ratio cfg_delete wav_quiet).
  vm_compute. reflexivity.
Defined.

Lemma keep_row_has_a_cause_witness :
  (exists size,
     stat_result wav_loud = inr size /\ size < MIN_SIZE_BYTES cfg_delete /\
     num_samples_used (scan wav_loud) = 0 /\
     scan_calls show_ratio cfg_delete wav_loud = [Stat]) \/
  (flt (Finite (SILENCE_THRESHOLD cfg_delete)) (max_abs_seen (scan wav_loud)) /\
   1 <= num_samples_used (scan wav_loud)).
Proof.
  apply (keep_row_has_a_cause show_ratio cfg_delete wav_loud).
  vm_compute. reflexivity.
Defined.

Lemma only_planned_chunks_matter_witness :
  scan wav_quiet = scan wav_loud_elsewhere /\
  scan_calls show_ratio cfg_delete wav_quiet
  = scan_calls show_ratio cfg_delete wav_loud_elsewhere.
Proof.
  apply (only_planned_chunks_matter show_ratio cfg_delete wav_quiet
           wav_loud_elsewhere sf_quiet sf_loud_elsewhere);
    try reflexivity.
  intros s Hs. vm_compute in Hs.
  destruct Hs as [<-|[<-|[<-|[<-|[]]]]]; split; reflexivity.
Defined.

End ScanInstances.

(** * Further properties of the pipeline *)

Section PipelineExtras.

Variable format_6g : float -> string.
Variable cfg : Config.

Let scan : WavFile -> ScanResult := scan_wav_for_silence format_6g cfg.
Let step : Summary -> WavFile -> Summary := main_step format_6g cfg.
Let run : Summary -> list WavFile -> Summary := main_loop format_6g cfg.
Let delete_mode : bool := (MODE cfg =? "DELETE")%string.

Lemma silent_is_not_error (res : ScanResult) :
  is_silent res = true -> is_error res = false.
Proof.
  unfold is_silent, is_error. intros H. apply String.eqb_eq in H.
  now rewrite H.
Qed.

Lemma count_cons {A : Type} (test : A -> bool) (x : A) (l : list A) :
  count test (x :: l) = (if test x then 1 else 0) + count test l.
Proof.
  unfold count. cbn [filter]. destruct (test x); cbn [List.length]; lia.
Qed.

(** What one iteration does to the counters. *)
Lemma step_counters (st : Summary) (w : WavFile) :
  let st' := step st w in
  let res := scan w in
  scanned st' = scanned st + 1 /\
  silent_candidates st'
  = silent_candidates st + (if is_silent res then 1 else 0) /\
  error_count st'
  = error_count st + (if is_error res then 1 else 0)
    + (if delete_mode && (is_silent res && remove_fails w) then 1 else 0) /\
  deleted_count st'
  = deleted_count st
    + (if delete_mode && (is_silent res && negb (remove_fails w))
       then 1 else 0) /\
  bytes_candidate_savings st'
  = bytes_candidate_savings st + (if is_silent res then size_bytes res else 0) /\
  bytes_deleted_savings st'
  = bytes_deleted_savings st
    + (if delete_mode && (is_silent res && negb (remove_fails w))
       then size_bytes res else 0).
Proof.
  intros st' res. unfold st', step, main_step. fold scan. fold res.
  fold (is_silent res). fold (is_error res). fold delete_mode.
  unfold remove_fails.
  destruct (is_silent res) eqn:Hs.
  - rewrite (silent_is_not_error res Hs).
    destruct delete_mode; [destruct (remove_result w)|]; simpl;
      repeat split; lia.
  - destruct (is_error res), delete_mode; simpl; repeat split; lia.
Qed.

(** X15. The counters of a run are exact: one scan per file; one silent
    candidate per file classified SILENT; one error per file classified
    ERROR and, in DELETE mode, one more per SILENT file whose removal
    raised; one deletion per SILENT file whose removal succeeded, in DELETE
    mode only. *)
Theorem run_counters_are_exact (st : Summary) (wav_files : list WavFile) :
  let st' := run st wav_files in
  let silent w := is_silent (scan w) in
  scanned st' = scanned st + Z.of_nat (List.length wav_files) /\
  silent_candidates st' = silent_candidates st + count silent wav_files /\
  error_count st'
  = error_count st + count (fun w => is_error (scan w)) wav_files
    + (if delete_mode
       then count (fun w => silent w && remove_fails w) wav_files else 0) /\
  deleted_count st'
  = deleted_count st
    + (if delete_mode
       then count (fun w => silent w && negb (remove_fails w)) wav_files
       else 0).
Proof.
  cbv zeta. unfold run, main_loop. revert st.
  induction wav_files as [|w t IH]; intros st.
  - unfold count. simpl. destruct delete_mode; repeat split; lia.
  - simpl fold_left.
    destruct (IH (main_step format_6g cfg st w)) as (H1 & H2 & H3 & H4).
    destruct (step_counters st w) as (S1 & S2 & S3 & S4 & _).
    unfold step in S1, S2, S3, S4. cbv zeta in S2, S3, S4.
    fold scan in S2, S3, S4.
    rewrite H1, H2, H3, H4, S1, S2, S3, S4, !count_cons.
    change (List.length (w :: t)) with (S (List.length t)).
    rewrite Nat2Z.inj_succ.
    destruct delete_mode, (is_silent (scan w)), (is_error (scan w)),
      (remove_fails w); cbn [andb negb]; repeat split; lia.
Qed.

Let reported (res : ScanResult) : Prop :=
  (decision res = "SILENT" \/ decision res = "ERROR")%string.

(** What one iteration appends to the report. *)
Lemma step_rows (st : Summary) (w : WavFile) :
  exists added,
    report_rows (step st w) = report_rows st ++ added /\
    Forall reported added /\
    filter is_silent added = filter is_silent [scan w] /\
    Z.of_nat (List.length added)
    = (silent_candidates (step st w) - silent_candidates st)
      + (error_count (step st w) - error_count st).
Proof.
  unfold step, main_step. fold scan.
  fold (is_silent (scan w)). fold (is_error (scan w)).
  cbn [filter]. destruct (is_silent (scan w)) eqn:Hs.
  - assert (Hd : decision (scan w) = "SILENT"%string)
      by now apply String.eqb_eq.
    destruct (MODE cfg =? "DELETE")%string; [destruct (remove_result w) as [e|]|].
    + exists [scan w; delete_failed_row (scan w) e]. simpl. rewrite Hs.
      split; [now rewrite <- app_assoc|].
      split; [constructor; [now left | constructor; [now right | constructor]]|].
      split; [reflexivity | lia].
    + exists [scan w]. simpl. rewrite Hs.
      split; [reflexivity|]. split; [constructor; [now left | constructor]|].
      split; [reflexivity | lia].
    + exists [scan w]. simpl. rewrite Hs.
      split; [reflexivity|]. split; [constructor; [now left | constructor]|].
      split; [reflexivity | lia].
  - destruct (is_error (scan w)) eqn:He.
    + assert (Hd : decision (scan w) = "ERROR"%string)
        by now apply String.eqb_eq.
      exists [scan w]. simpl. rewrite Hs.
      split; [reflexivity|]. split; [constructor; [now right | constructor]|].
      split; [reflexivity | lia].
    + exists []. simpl. split; [now rewrite app_nil_r|].
      split; [constructor|]. split; [reflexivity | lia].
Qed.

(** X16. The report holds the candidates and the errors, and nothing else: a
    run only appends rows; every appended row is SILENT or ERROR (a KEEP
    row is never reported); the SILENT rows appended are the rows of the
    files classified SILENT, once each and in scan order; and as many rows
    are appended as the silent and error counters grow together. *)
Theorem report_holds_candidates_and_errors (st : Summary)
    (wav_files : list WavFile) :
  exists added,
    report_rows (run st wav_files) = report_rows st ++ added /\
    Forall (fun res => (decision res = "SILENT"
                        \/ decision res = "ERROR")%string) added /\
    filter is_silent added = filter is_silent (map scan wav_files) /\
    Z.of_nat (List.length added)
    = (silent_candidates (run st wav_files) - silent_candidates st)
      + (error_count (run st wav_files) - error_count st).
Proof.
  unfold run, main_loop. revert st.
  induction wav_files as [|w t IH]; intros st.
  - exists []. simpl. split; [now rewrite app_nil_r|].
    split; [constructor|]. split; [reflexivity | lia].
  - simpl fold_left.
    destruct (IH (main_step format_6g cfg st w)) as (a2 & R2 & F2 & S2 & L2).
    destruct (step_rows st w) as (a1 & R1 & F1 & S1 & L1).
    unfold step in R1, L1.
    exists (a1 ++ a2).
    split; [now rewrite R2, R1, <- app_assoc|].
    split; [apply Forall_app; split; assumption|].
    split.
    + rewrite filter_app, S1, S2. cbn [map filter].
      now destruct (is_silent (scan w)).
    + rewrite length_app, Nat2Z.inj_add, L1, L2. lia.
Qed.

Lemma scan_size_nonneg (w : WavFile) :
  (forall size, stat_result w = inr size -> 0 <= size) ->
  0 <= size_bytes (scan w).
Proof.
  intros Hsize.
  pose proof (classified_scan format_6g cfg w) as Hc. fold scan in Hc.
  remember (scan w) as res. remember (scan_calls format_6g cfg w) as cs.
  destruct Hc as [e H|sz H Hg|sz e H Hg Ho|sz f fpi Hr|sz f st fpi Hr Hne Hq
                 |sz f st fpi pre post k data Hr Hsp Hq Hl
                 |sz f st fpi pre post k e Hr Hsp Hq Hk
                 |sz f st fpi pre post k e Hr Hsp Hq Hk];
    simpl; try lia; try (now apply Hsize);
    destruct Hr as (H & _); now apply Hsize.
Qed.

(** X17. What is reclaimed never exceeds what is flagged: over a run, the
    deleted count grows by at most the silent count, and, file sizes being
    non-negative, the deleted bytes grow by at most the candidate bytes;
    outside DELETE mode neither the deleted count nor the deleted bytes
    change. *)
Theorem reclaimed_at_most_flagged (st : Summary) (wav_files : list WavFile) :
  (forall w size, In w wav_files -> stat_result w = inr size -> 0 <= size) ->
  let st' := run st wav_files in
  0 <= deleted_count st' - deleted_count st
    <= silent_candidates st' - silent_candidates st /\
  0 <= bytes_deleted_savings st' - bytes_deleted_savings st
    <= bytes_candidate_savings st' - bytes_candidate_savings st /\
  (MODE cfg <> "DELETE"%string ->
   deleted_count st' = deleted_count st /\
   bytes_deleted_savings st' = bytes_deleted_savings st).
Proof.
  cbv zeta. unfold run, main_loop. revert st.
  induction wav_files as [|w t IH]; intros st Hsizes.
  - simpl. repeat split; lia.
  - simpl fold_left.
    destruct (IH (main_step format_6g cfg st w)) as (D & B & A);
      [intros w' size Hin; apply Hsizes; now right|].
    destruct (step_counters st w) as (_ & S2 & _ & S4 & S5 & S6).
    unfold step in S2, S4, S5, S6. cbv zeta in S2, S4, S5, S6.
    fold scan in S2, S4, S5, S6.
    pose proof (scan_size_nonneg w (fun size => Hsizes w size (or_introl eq_refl)))
      as Hnn.
    assert (Haudit : MODE cfg <> "DELETE"%string -> delete_mode = false)
      by (intros Hm; now apply String.eqb_neq).
    split; [|split].
    + destruct delete_mode, (is_silent (scan w)), (remove_fails w);
        cbn [andb negb] in *; lia.
    + destruct delete_mode, (is_silent (scan w)), (remove_fails w);
        cbn [andb negb] in *; lia.
    + intros Hm. destruct (A Hm) as [A1 A2]. rewrite A1, A2, S4, S6.
      rewrite (Haudit Hm). cbn [andb]. split; lia.
Qed.

End PipelineExtras.

(** * Properties of the enumeration *)

Section Enumeration.

Import Ascii.
Local Open Scope char_scope.

Lemma ascii_lower_dot (c : Ascii.ascii) : ascii_lower c = "." -> c = ".".
Proof.
  destruct c as [[] [] [] [] [] [] [] []]; vm_compute; intros H;
    first [discriminate H | reflexivity].
Qed.

Lemma ascii_lower_w (c : Ascii.ascii) :
  ascii_lower c = "w" -> c = "w" \/ c = "W".
Proof.
  destruct c as [[] [] [] [] [] [] [] []]; vm_compute; intros H;
    first [discriminate H | now left | now right].
Qed.

Lemma ascii_lower_a (c : Ascii.ascii) :
  ascii_lower c = "a" -> c = "a" \/ c = "A".
Proof.
  destruct c as [[] [] [] [] [] [] [] []]; vm_compute; intros H;
    first [discriminate H | now left | now right].
Qed.

Lemma ascii_lower_v (c : Ascii.ascii) :
  ascii_lower c = "v" -> c = "v" \/ c = "V".
Proof.
  destruct c as [[] [] [] [] [] [] [] []]; vm_compute; intros H;
    first [discriminate H | now left | now right].
Qed.

Local Close Scope char_scope.
Local Open Scope string_scope.

(** The suffixes that lowercase to [".wav"]. *)
Lemma wav_suffix_spellings (s : string) :
  (lower s =? ".wav") = true <->
  In s [".wav"; ".waV"; ".wAv"; ".wAV"; ".Wav"; ".WaV"; ".WAv"; ".WAV"].
Proof.
  split.
  - intros H. apply String.eqb_eq in H.
    destruct s as [|c1 [|c2 [|c3 [|c4 [|c5 t]]]]]; simpl in H;
      try discriminate H.
    injection H as H1 H2 H3 H4.
    apply ascii_lower_dot in H1. apply ascii_lower_w in H2.
    apply ascii_lower_a in H3. apply ascii_lower_v in H4.
    subst c1. destruct H2 as [-> | ->], H3 as [-> | ->], H4 as [-> | ->];
      simpl; auto 10.
  - intros H. simpl in H.
    repeat (destruct H as [<-|H]; [reflexivity|]). contradiction.
Qed.

(** X18. [find_wav_files] returns the enumerated paths that are regular files
    and whose suffix is [.wav] in any mix of capitals and small letters,
    and no other path; directories and other suffixes are left out. *)
Theorem find_wav_files_membership (rglob : list DirEntry) (w : WavFile) :
  In w (find_wav_files rglob) <->
  exists p,
    In p rglob /\ entry p = w /\ is_file p = true /\
    In (suffix p)
       [".wav"; ".waV"; ".wAv"; ".wAV"; ".Wav"; ".WaV"; ".WAv"; ".WAV"].
Proof.
  unfold find_wav_files. rewrite in_map_iff. split.
  - intros [p [Hw Hp]]. apply filter_In in Hp. destruct Hp as [Hin Htest].
    apply andb_true_iff in Htest. destruct Htest as [Hfile Hsuffix].
    exists p. repeat split; try assumption. now apply wav_suffix_spellings.
  - intros (p & Hin & Hw & Hfile & Hsuffix). exists p.
    split; [assumption|]. apply filter_In. split; [assumption|].
    apply andb_true_iff. split; [assumption|].
    now apply wav_suffix_spellings.
Qed.

End Enumeration.

Section PipelineInstances.

Import Samples.

Lemma reclaimed_at_most_flagged_witness :
  let st' := main_loop show_ratio cfg_delete summary0
                       [wav_loud; wav_quiet; wav_mute] in
  0 <= deleted_count st' - deleted_count summary0
    <= silent_candidates st' - silent_candidates summary0 /\
  0 <= bytes_deleted_savings st' - bytes_deleted_savings summary0
    <= bytes_candidate_savings st' - bytes_candidate_savings summary0.
Proof.
  destruct (reclaimed_at_most_flagged show_ratio cfg_delete summary0
              [wav_loud; wav_quiet; wav_mute]) as (Hd & Hb & _).
  - intros w size [<-|[<-|[<-|[]]]] [= <-]; lia.
  - split; assumption.
Defined.

End PipelineInstances.
